(** * Draft-state engine of the fantasy-football draft assistant

    A shallow embedding of [src/draft_assistant.py] (class [DraftAssistant]):
    the snake-draft position tracker, the roster ledger, the availability
    index, the recommendation scorer and the JSON snapshot of the draft
    state, followed by the properties of the specification that concern
    them.

    Conventions of the embedding.
    - Python integers are [Z]; Python dictionaries are [gmap]s.
    - The numeric columns of the player table are floating point in the
      source; here they are exact rationals ([Qc]), so that rounding is not
      modelled.
    - A method of [DraftAssistant] that reads or writes [self.draft_state]
      is a computation in the state monad [M] over [draft_state]; the player
      table [self.players_df], which no method changes after start-up, is a
      section variable.
    - [datetime.now().isoformat()] is an extra argument [now] of the methods
      that read the clock.
    - A method that can end with an exception returns an [option], [None]
      for the exception.
    - The expert rank that [record_pick] copies from the player table is a
      numpy scalar of the dtype of the rank column; that dtype, which the
      rankings file decides, is a parameter ([rank_dtype]) of the
      snapshot. *)

From Stdlib Require Import ZArith QArith Qcanon.
From stdpp Require Import base numbers option list strings gmap fin_maps sorting pretty.

Local Open Scope Z_scope.
Set Warnings "-register-all".

(** ** Data model *)

(** A row of [self.players_df] once [_prepare_features] has run.  Only the
    columns that the draft engine reads are kept; the encoded and rank
    columns feed the regression model alone. *)
Record player := Player {
  Name : string;
  Position : string;
  Team : string;
  Expert_Rank : Qc;
  Value_Score : Qc
}.

(** The dictionary [pick_info] built by [record_pick]. *)
Record pick_info := PickInfo {
  pi_player_name : string;
  pi_team_number : Z;
  pi_position : string;
  pi_expert_rank : Qc;
  pi_round : Z;
  pi_pick : Z;
  pi_is_your_pick : bool;
  pi_timestamp : string
}.

(** A dictionary key: an integer ([inl]) or a string ([inr]).
    [record_pick] files a roster under the integer team number; a JSON
    object read back by [json.load] has string keys only, and in Python [5]
    and ["5"] are different keys. *)
Abbreviation py_key := (Z + string)%type.

(** [self.draft_state]. *)
Record draft_state := DraftState {
  round : Z;
  pick : Z;
  total_teams : Z;
  draft_format : gmap string Z;
  drafted_players : list pick_info;
  team_rosters : gmap py_key (list pick_info);
  current_team : Z
}.

(** The value [__init__] gives to [self.draft_state]. *)
Definition initial_state : draft_state :=
  {| round := 1; pick := 1; total_teams := 12; draft_format := ∅;
     drafted_players := []; team_rosters := ∅; current_team := 1 |}.

(** Field assignments [self.draft_state[k] = v]. *)
Definition set_round (v : Z) (st : draft_state) : draft_state :=
  {| round := v; pick := pick st; total_teams := total_teams st;
     draft_format := draft_format st; drafted_players := drafted_players st;
     team_rosters := team_rosters st; current_team := current_team st |}.
Definition set_pick (v : Z) (st : draft_state) : draft_state :=
  {| round := round st; pick := v; total_teams := total_teams st;
     draft_format := draft_format st; drafted_players := drafted_players st;
     team_rosters := team_rosters st; current_team := current_team st |}.
Definition set_total_teams (v : Z) (st : draft_state) : draft_state :=
  {| round := round st; pick := pick st; total_teams := v;
     draft_format := draft_format st; drafted_players := drafted_players st;
     team_rosters := team_rosters st; current_team := current_team st |}.
Definition set_format (v : gmap string Z) (st : draft_state) : draft_state :=
  {| round := round st; pick := pick st; total_teams := total_teams st;
     draft_format := v; drafted_players := drafted_players st;
     team_rosters := team_rosters st; current_team := current_team st |}.
Definition set_drafted_players (v : list pick_info) (st : draft_state) : draft_state :=
  {| round := round st; pick := pick st; total_teams := total_teams st;
     draft_format := draft_format st; drafted_players := v;
     team_rosters := team_rosters st; current_team := current_team st |}.
Definition set_team_rosters (v : gmap py_key (list pick_info))
    (st : draft_state) : draft_state :=
  {| round := round st; pick := pick st; total_teams := total_teams st;
     draft_format := draft_format st; drafted_players := drafted_players st;
     team_rosters := v; current_team := current_team st |}.
Definition set_current_team (v : Z) (st : draft_state) : draft_state :=
  {| round := round st; pick := pick st; total_teams := total_teams st;
     draft_format := draft_format st; drafted_players := drafted_players st;
     team_rosters := team_rosters st; current_team := v |}.

(** ** The state monad of the methods *)

Definition M (A : Type) : Type := draft_state → A * draft_state.

Definition ret {A} (a : A) : M A := λ st, (a, st).
Definition bind {A B} (m : M A) (k : A → M B) : M B :=
  λ st, let (a, st') := m st in k a st'.
Definition gets {A} (f : draft_state → A) : M A := λ st, (f st, st).
Definition modify (f : draft_state → draft_state) : M unit := λ st, (tt, f st).

Notation "x <~ m ;; k" := (bind m (λ x, k))
  (at level 100, m at next level, right associativity).
Notation "m ;;; k" := (bind m (λ _, k))
  (at level 100, right associativity).

(** ** DraftPositionTracker *)

(** [set_draft_format]. *)
Definition set_draft_format (format_config : gmap string Z) : M unit :=
  modify (set_format format_config).

(** [set_draft_parameters]: both values are stored as they come. *)
Definition set_draft_parameters (total current : Z) : M unit :=
  modify (set_total_teams total) ;;;
  modify (set_current_team current).

(** [_calculate_current_team]: the team on the clock in a snake draft. *)
Definition _calculate_current_team : M Z :=
  round_num <~ gets round ;;
  pick_num <~ gets pick ;;
  total <~ gets total_teams ;;
  if decide (round_num `mod` 2 = 1) then ret pick_num
  else ret (total - pick_num + 1).

(** [_advance_draft_position]. *)
Definition _advance_draft_position : M unit :=
  total <~ gets total_teams ;;
  pick_num <~ gets pick ;;
  if decide (pick_num = total) then
    (r <~ gets round ;; modify (set_round (r + 1))) ;;;
    modify (set_pick 1)
  else
    modify (set_pick (pick_num + 1)).

(** [get_current_draft_position]. *)
Definition get_current_draft_position (st : draft_state) : Z :=
  (round st - 1) * total_teams st + pick st.

(** [is_your_turn]. *)
Definition is_your_turn : M bool :=
  team <~ _calculate_current_team ;;
  gets (λ st, bool_decide (team = current_team st)).

(** ** Numbers of the scorer *)

(** A decimal literal of the source as an exact rational. *)
Definition dec (q : Q) : Qc := Q2Qc q.

(** Python's [max(a, b)] and [min(a, b)] on numbers: the first argument is
    kept unless the second is strictly greater (smaller). *)
Definition py_max (a b : Qc) : Qc := if decide (a < b)%Qc then b else a.
Definition py_min (a b : Qc) : Qc := if decide (b < a)%Qc then b else a.

(** [Series.max()] and [Series.min()] of a column; the callers only take
    them of a non-empty column. *)
Definition series_max (col : list Qc) : Qc :=
  match col with
  | [] => 0%Qc
  | v :: col' => foldl py_max v col'
  end.
Definition series_min (col : list Qc) : Qc :=
  match col with
  | [] => 0%Qc
  | v :: col' => foldl py_min v col'
  end.

(** ** The player table *)

(** A row of the rankings file as [_load_data] keeps it. *)
Record csv_row := CsvRow {
  csv_name : string;
  csv_position : string;
  csv_team : string;
  csv_expert_rank : Qc
}.

(** [sort_values('Expert_Rank')], ascending.  The order among rows of equal
    rank is the one stdpp's [merge_sort] leaves, which need not be the order
    of the input; pandas' default sort does not promise an order among them
    either, and no property below depends on it. *)
Definition by_expert_rank {A} (rank : A → Qc) (x y : A) : Prop :=
  (rank x ≤ rank y)%Qc.
Global Instance by_expert_rank_dec {A} (rank : A → Qc) :
  RelDecision (by_expert_rank rank).
Proof. intros x y. unfold by_expert_rank. apply _. Defined.

(** [_load_data], on rows that already carry a numeric expert rank. *)
Definition _load_data (rows : list csv_row) : list csv_row :=
  merge_sort (by_expert_rank csv_expert_rank) rows.

(** [_prepare_features]: the column [Value_Score = 1 / Expert_Rank].  The
    data model has positive ranks; for a rank of zero the source's column
    holds [inf], which the rational quotient does not reproduce. *)
Definition _prepare_features (rows : list csv_row) : list player :=
  fmap (λ r, {| Name := csv_name r; Position := csv_position r;
               Team := csv_team r; Expert_Rank := csv_expert_rank r;
               Value_Score := (1 / csv_expert_rank r)%Qc |}) rows.

(** The table [__init__] leaves in [self.players_df]. *)
Definition load_players (rows : list csv_row) : list player :=
  _prepare_features (_load_data rows).

(** ** RosterLedger, AvailabilityIndex and RecommendationEngine *)

(** An element of [player_scores] in [get_recommendations]. *)
Record player_score := PlayerScore {
  ps_player : player;
  ps_score : Qc;
  ps_position : string;
  ps_expert_rank : Qc
}.

(** The dictionary [get_draft_summary] returns. *)
Record summary := Summary {
  current_round : Z;
  current_pick : Z;
  current_draft_position : Z;
  your_team : Z;
  your_roster : list pick_info;
  your_needs : gmap string Z;
  total_drafted : Z;
  summary_draft_format : gmap string Z;
  next_pick_estimate : Z
}.

(** The loop of [get_team_needs] that counts the roster by position. *)
Definition position_counts (current_roster : list pick_info) : gmap string Z :=
  foldl (λ counts p,
           <[pi_position p := default 0 (counts !! pi_position p) + 1]> counts)
        ∅ current_roster.

(** [get_team_needs]. *)
Definition get_team_needs (team_number : Z) (st : draft_state) : gmap string Z :=
  match team_rosters st !! (inl team_number : py_key) with
  | None => draft_format st
  | Some current_roster =>
      let counts := position_counts current_roster in
      map_imap (λ pos required,
                  Some (Z.max 0 (required - default 0 (counts !! pos))))
               (draft_format st)
  end.

(** [_estimate_next_pick]. *)
Definition _estimate_next_pick (st : draft_state) : Z :=
  if decide (pick st < current_team st) then current_team st - pick st
  else total_teams st - pick st + current_team st.

(** [get_draft_summary]. *)
Definition get_draft_summary (st : draft_state) : summary :=
  {| current_round := round st;
     current_pick := pick st;
     current_draft_position := get_current_draft_position st;
     your_team := current_team st;
     your_roster :=
       default [] (team_rosters st !! (inl (current_team st) : py_key));
     your_needs := get_team_needs (current_team st) st;
     total_drafted := Z.of_nat (length (drafted_players st));
     summary_draft_format := draft_format st;
     next_pick_estimate := _estimate_next_pick st |}.

Section Engine.
(** [self.players_df]. *)
Variable players_df : list player.

(** [record_pick].  [None] for [team_number] or [is_your_pick] is the
    Python default [None]. *)
Definition record_pick (player_name : string) (team_number : option Z)
    (is_your_pick : option bool) (now : string) : M bool :=
  match filter (λ p, Name p = player_name) players_df with
  | [] => ret false
  | player_data :: _ =>
      team_number <~ match team_number with
                     | None => _calculate_current_team
                     | Some t => ret t
                     end ;;
      is_your_pick <~ match is_your_pick with
                      | None => gets (λ st,
                          bool_decide (team_number = current_team st))
                      | Some b => ret b
                      end ;;
      pick_info <~ gets (λ st,
        {| pi_player_name := player_name;
           pi_team_number := team_number;
           pi_position := Position player_data;
           pi_expert_rank := Expert_Rank player_data;
           pi_round := round st;
           pi_pick := pick st;
           pi_is_your_pick := is_your_pick;
           pi_timestamp := now |}) ;;
      modify (λ st,
        set_drafted_players (drafted_players st ++ [pick_info]) st) ;;;
      modify (λ st,
        match team_rosters st !! (inl team_number : py_key) with
        | None => set_team_rosters (<[inl team_number := []]> (team_rosters st)) st
        | Some _ => st
        end) ;;;
      modify (λ st,
        set_team_rosters
          (alter (λ roster, roster ++ [pick_info]) (inl team_number)
                 (team_rosters st)) st) ;;;
      _advance_draft_position ;;;
      ret true
  end.

(** [get_available_players]. *)
Definition get_available_players (st : draft_state) : list player :=
  let drafted_names := fmap pi_player_name (drafted_players st) in
  let available := filter (λ p, Name p ∉ drafted_names) players_df in
  merge_sort (by_expert_rank Expert_Rank) available.

(** The column [relative_value] that [get_recommendations] adds to the
    frame of available players, row by row. *)
Definition with_relative_value (available : list player) : list (player * Qc) :=
  match available with
  | [] => []
  | _ =>
      let best_value := series_max (fmap Value_Score available) in
      let worst_value := series_min (fmap Value_Score available) in
      let value_range := (best_value - worst_value)%Qc in
      if decide (0 < value_range)%Qc then
        fmap (λ p, (p, ((Value_Score p - worst_value) / value_range
                         * Qc_of_Z 100)%Qc)) available
      else
        fmap (λ p, (p, Qc_of_Z 100)) available
  end.

(** The body of the scoring loop of [get_recommendations] for one row.
    The result is an option, [None] when the body raises: [iterrows] hands
    the rank over as a Python number, so [1 / player['Expert_Rank']] raises
    [ZeroDivisionError] for a rank of zero, and [.iloc[0]] raises
    [IndexError] on an empty selection. *)
Definition score_player (st : draft_state) (your_needs : gmap string Z)
    (available : list (player * Qc)) (row : player * Qc) : option player_score :=
  let p := row.1 in
  let position := Position p in
  base_score ← (if decide (Expert_Rank p = 0%Qc) then None
                else Some (1 / Expert_Rank p)%Qc) ;
  let current_pick := (round st - 1) * total_teams st + pick st in
  let adp_value_bonus :=
    if decide (Expert_Rank p < Qc_of_Z current_pick)%Qc then
      let adp_difference := (Qc_of_Z current_pick - Expert_Rank p)%Qc in
      py_min (adp_difference * dec 0.1)%Qc (dec 2.0)
    else 0%Qc in
  let need := default 0 (your_needs !! position) in
  let need_bonus :=
    if decide (0 < need) then (Qc_of_Z need * dec 0.3)%Qc
    else (- dec 0.2)%Qc in
  relative_value ← snd <$> head (filter (λ r, Name r.1 = Name p) available) ;
  let value_bonus := (relative_value * dec 0.02)%Qc in
  let pos_available :=
    length (filter (λ r, Position r.1 = position) available) in
  let scarcity_bonus :=
    py_max 0%Qc (Qc_of_Z (10 - Z.of_nat pos_available) * dec 0.1)%Qc in
  let final_score :=
    (base_score + need_bonus + value_bonus + scarcity_bonus
     + adp_value_bonus)%Qc in
  Some {| ps_player := p; ps_score := final_score;
          ps_position := position; ps_expert_rank := Expert_Rank p |}.

(** The list [player_scores] of [get_recommendations], before it is
    sorted and cut to the requested length; [None] when the loop raises at
    some row, which ends [get_recommendations] with that exception. *)
Definition player_scores (st : draft_state) : option (list player_score) :=
  let your_team := current_team st in
  let your_needs := get_team_needs your_team st in
  let available := with_relative_value (get_available_players st) in
  mapM (score_player st your_needs available) available.
End Engine.

(** ** The JSON snapshot *)

(** The Python values a snapshot is made of.  A dictionary is the list of
    its items.  [PFloat] is a Python [float], which [numpy.float64] is as
    well (it is a subclass); [PInt64] is a [numpy.int64] scalar, which is
    not a Python [int]. *)
Inductive pyval :=
  | PNone
  | PBool (b : bool)
  | PInt (z : Z)
  | PInt64 (z : Z)
  | PFloat (q : Qc)
  | PStr (s : string)
  | PList (items : list pyval)
  | PDict (items : list (py_key * pyval)).

(** [d[k]] on the items of a dictionary; of two items with one key the
    later one counts, as in a dictionary built by [json.load]. *)
Fixpoint py_get (k : py_key) (items : list (py_key * pyval)) : option pyval :=
  match items with
  | [] => None
  | (k', v) :: items' =>
      match py_get k items' with
      | Some v' => Some v'
      | None => if decide (k' = k) then Some v else None
      end
  end.

(** [json.dump] turns every dictionary key into a string; [json_key] is
    that coercion ([str] of an integer). *)
Definition json_key (k : py_key) : py_key :=
  match k with
  | inl z => inr (pretty z)
  | inr s => inr s
  end.

(** The value [json.load] reads from what [json.dump] wrote for [v];
    [None] when [json.dump] raises [TypeError], which it does at a
    [numpy.int64]: the encoder knows the Python types only. *)
Fixpoint json_dump (v : pyval) : option pyval :=
  match v with
  | PInt64 _ => None
  | PList items => PList <$> mapM json_dump items
  | PDict items =>
      PDict <$> mapM (λ kv, v' ← json_dump kv.2 ; Some (json_key kv.1, v'))
                     items
  | _ => Some v
  end.

(** The dtype pandas gives the column [Expert_Rank] of the player table:
    [int64] when every rank of the rankings file is written as an integer,
    [float64] otherwise. *)
Inductive rank_dtype := int64 | float64.

(** [player_data['Expert_Rank']] as [record_pick] stores it (line 171):
    [.iloc[0]] hands out a numpy scalar of the column's dtype.  An [int64]
    column holds integers only. *)
Definition rank_scalar (dtype : rank_dtype) (rank : Qc) : pyval :=
  match dtype with
  | int64 => PInt64 (Qnum rank / Z.pos (Qden rank))
  | float64 => PFloat rank
  end.

(** [pick_info] as the dictionary [record_pick] builds from a table whose
    rank column has the given dtype. *)
Definition pick_to_py (dtype : rank_dtype) (p : pick_info) : pyval :=
  PDict [ (inr "player_name", PStr (pi_player_name p));
          (inr "team_number", PInt (pi_team_number p));
          (inr "position", PStr (pi_position p));
          (inr "expert_rank", rank_scalar dtype (pi_expert_rank p));
          (inr "round", PInt (pi_round p));
          (inr "pick", PInt (pi_pick p));
          (inr "is_your_pick", PBool (pi_is_your_pick p));
          (inr "timestamp", PStr (pi_timestamp p)) ]%string.

(** [self.draft_state] as the dictionary it is in memory when its picks
    were recorded by [record_pick] from a table whose rank column has the
    given dtype.  The items of [draft_format] and [team_rosters] come in the
    order of [map_to_list]; the insertion order of a Python dictionary is
    not modelled. *)
Definition state_to_py (dtype : rank_dtype) (st : draft_state) : pyval :=
  PDict [ (inr "round", PInt (round st));
          (inr "pick", PInt (pick st));
          (inr "total_teams", PInt (total_teams st));
          (inr "draft_format",
             PDict (fmap (λ kv, (inr kv.1, PInt kv.2))
                        (map_to_list (draft_format st))));
          (inr "drafted_players",
             PList (fmap (pick_to_py dtype) (drafted_players st)));
          (inr "team_rosters",
             PDict (fmap (λ kv, (kv.1, PList (fmap (pick_to_py dtype) kv.2)))
                        (map_to_list (team_rosters st))));
          (inr "current_team", PInt (current_team st)) ]%string.

(** Reading typed fields out of a Python value, the way the methods index
    [self.draft_state]. *)
Definition py_int (v : pyval) : option Z :=
  match v with PInt z => Some z | _ => None end.
Definition py_float (v : pyval) : option Qc :=
  match v with PFloat q => Some q | _ => None end.
Definition py_str (v : pyval) : option string :=
  match v with PStr s => Some s | _ => None end.
Definition py_bool (v : pyval) : option bool :=
  match v with PBool b => Some b | _ => None end.
Definition py_list (v : pyval) : option (list pyval) :=
  match v with PList items => Some items | _ => None end.
Definition py_dict (v : pyval) : option (list (py_key * pyval)) :=
  match v with PDict items => Some items | _ => None end.

Definition pick_of_py (v : pyval) : option pick_info :=
  d ← py_dict v ;
  name ← py_get (inr "player_name"%string) d ≫= py_str ;
  team ← py_get (inr "team_number"%string) d ≫= py_int ;
  pos ← py_get (inr "position"%string) d ≫= py_str ;
  rank ← py_get (inr "expert_rank"%string) d ≫= py_float ;
  r ← py_get (inr "round"%string) d ≫= py_int ;
  p ← py_get (inr "pick"%string) d ≫= py_int ;
  yours ← py_get (inr "is_your_pick"%string) d ≫= py_bool ;
  ts ← py_get (inr "timestamp"%string) d ≫= py_str ;
  Some {| pi_player_name := name; pi_team_number := team;
          pi_position := pos; pi_expert_rank := rank; pi_round := r;
          pi_pick := p; pi_is_your_pick := yours; pi_timestamp := ts |}.

Definition picks_of_py (v : pyval) : option (list pick_info) :=
  py_list v ≫= mapM pick_of_py.

Definition format_item_of_py (kv : py_key * pyval) : option (string * Z) :=
  match kv.1 with
  | inr pos => required ← py_int kv.2 ; Some (pos, required)
  | inl _ => None
  end.

Definition roster_item_of_py (kv : py_key * pyval)
    : option (py_key * list pick_info) :=
  roster ← picks_of_py kv.2 ; Some (kv.1, roster).

(** The dictionary made of a list of items, later items first: the later
    of two items with one key counts. *)
Definition dict_of_items {K} `{Countable K} {A} (items : list (K * A)) : gmap K A :=
  list_to_map (reverse items).

Definition format_of_py (v : pyval) : option (gmap string Z) :=
  items ← py_dict v ;
  fmt ← mapM format_item_of_py items ;
  Some (dict_of_items fmt).

Definition rosters_of_py (v : pyval) : option (gmap py_key (list pick_info)) :=
  items ← py_dict v ;
  rosters ← mapM roster_item_of_py items ;
  Some (dict_of_items rosters).

(** The typed view of a Python value that has the shape of
    [self.draft_state]. *)
Definition state_of_py (v : pyval) : option draft_state :=
  d ← py_dict v ;
  r ← py_get (inr "round"%string) d ≫= py_int ;
  p ← py_get (inr "pick"%string) d ≫= py_int ;
  total ← py_get (inr "total_teams"%string) d ≫= py_int ;
  fmt ← py_get (inr "draft_format"%string) d ≫= format_of_py ;
  drafted ← py_get (inr "drafted_players"%string) d ≫= picks_of_py ;
  rosters ← py_get (inr "team_rosters"%string) d ≫= rosters_of_py ;
  current ← py_get (inr "current_team"%string) d ≫= py_int ;
  Some {| round := r; pick := p; total_teams := total;
          draft_format := fmt; drafted_players := drafted;
          team_rosters := rosters; current_team := current |}.

Section Snapshot.
Variable players_df : list player.
(** The dtype of [self.players_df['Expert_Rank']]. *)
Variable dtype : rank_dtype.

(** The dictionary [export_data] of [export_draft_state]. *)
Definition export_data (now : string) (st : draft_state) : pyval :=
  PDict [ (inr "draft_state", state_to_py dtype st);
          (inr "export_timestamp", PStr now);
          (inr "total_players", PInt (Z.of_nat (length players_df)));
          (inr "available_players",
             PInt (Z.of_nat (length (get_available_players players_df st))))
        ]%string.

(** [export_draft_state]: the content of the file it writes, as the value
    [json.load] reads from that file.  [None]: [json.dump] raised
    [TypeError], [export_draft_state] ends with that exception, and the
    file, opened for writing before, holds the beginning of a document,
    which [json.load] refuses. *)
Definition export_draft_state (now : string) (st : draft_state)
    : option pyval :=
  json_dump (export_data now st).
End Snapshot.

(** [import_draft_state].  [file] is what [json.load] makes of the named
    file: [None] when the file cannot be opened or is not JSON.  The state
    is the Python value held in [self.draft_state]; every exception is
    caught and reported as [False]. *)
Definition import_draft_state (file : option pyval) (draft_state : pyval)
    : bool * pyval :=
  match file with
  | Some (PDict import_data) =>
      match py_get (inr "draft_state"%string) import_data with
      | Some v => (true, v)
      | None => (false, draft_state)
      end
  | _ => (false, draft_state)
  end.

(** ** Operations and reachable states *)

(** The calls that drive a draft. *)
Inductive op :=
  | SetDraftFormat (format_config : gmap string Z)
  | SetDraftParameters (total current : Z)
  | RecordPick (player_name : string) (team_number : option Z)
               (is_your_pick : option bool) (now : string).

Section Runs.
Variable players_df : list player.

(** One call; the setters return nothing, which counts as success. *)
Definition perform (o : op) : M bool :=
  match o with
  | SetDraftFormat format_config =>
      set_draft_format format_config ;;; ret true
  | SetDraftParameters total current =>
      set_draft_parameters total current ;;; ret true
  | RecordPick player_name team_number is_your_pick now =>
      record_pick players_df player_name team_number is_your_pick now
  end.

(** A sequence of calls, with the result of each. *)
Fixpoint perform_all (os : list op) : M (list bool) :=
  match os with
  | [] => ret []
  | o :: os' =>
      b <~ perform o ;;
      bs <~ perform_all os' ;;
      ret (b :: bs)
  end.

(** One call leads from [st] to [st']. *)
Definition step (st st' : draft_state) : Prop :=
  ∃ o, st' = (perform o st).2.

(** The states a draft reaches from the initial one by calls that
    [allowed] admits in the state they are made in. *)
Inductive reachable_by (allowed : draft_state → op → Prop)
    : draft_state → Prop :=
  | reachable_initial : reachable_by allowed initial_state
  | reachable_perform st o :
      reachable_by allowed st → allowed st o →
      reachable_by allowed (perform o st).2.

(** Every call is admitted. *)
Definition reachable : draft_state → Prop := reachable_by (λ _ _, True).

(** Each call of a sequence is admitted in the state it is made in. *)
Fixpoint allowed_all (allowed : draft_state → op → Prop) (os : list op)
    (st : draft_state) : Prop :=
  match os with
  | [] => True
  | o :: os' => allowed st o ∧ allowed_all allowed os' (perform o st).2
  end.

(** A pick is only recorded for a player that no recorded pick names. *)
Definition records_undrafted (st : draft_state) (o : op) : Prop :=
  match o with
  | RecordPick player_name _ _ _ =>
      player_name ∉ fmap pi_player_name (drafted_players st)
  | _ => True
  end.
End Runs.

(** [_advance_draft_position] as a function on states, and [n] of them. *)
Definition advance (st : draft_state) : draft_state :=
  (_advance_draft_position st).2.
Definition advance_times (n : nat) (st : draft_state) : draft_state :=
  Nat.iter n advance st.

(** A call of [record_pick] is its argument list. *)
Definition is_record (o : op) : Prop :=
  match o with RecordPick _ _ _ _ => True | _ => False end.

(** ** The specification's formulas *)

(** The number of picks at [pos] on a roster. *)
Definition count_on_roster (pos : string) (roster : list pick_info) : Z :=
  Z.of_nat (length (filter (λ p, pi_position p = pos) roster)).

(** The roster of a team; a team without picks has the empty one. *)
Definition roster_of (team : Z) (st : draft_state) : list pick_info :=
  default [] (team_rosters st !! (inl team : py_key)).

(** need(t, pos): the unfilled slots at [pos], nothing for a position that
    the draft format does not list. *)
Definition spec_need (team : Z) (st : draft_state) (pos : string) : Z :=
  match draft_format st !! pos with
  | Some required => Z.max 0 (required - count_on_roster pos (roster_of team st))
  | None => 0
  end.

Definition Qc_min (a b : Qc) : Qc := if decide (a ≤ b)%Qc then a else b.
Definition Qc_max (a b : Qc) : Qc := if decide (a ≤ b)%Qc then b else a.

Definition spec_need_bonus (need : Z) : Qc :=
  if decide (0 < need) then (Qc_of_Z need * dec 0.3)%Qc else (- dec 0.2)%Qc.

Definition spec_adp_value_bonus (overall_position : Z) (expert_rank : Qc) : Qc :=
  if decide (Qc_of_Z overall_position ≤ expert_rank)%Qc then 0%Qc
  else Qc_min ((Qc_of_Z overall_position - expert_rank) * dec 0.1)%Qc (dec 2.0).

(** Min-max normalization of [1 / expert_rank] to [0, 100] over [pool]. *)
Definition spec_relative_value (pool : list player) (p : player) : Qc :=
  let values := fmap (λ q, (1 / Expert_Rank q)%Qc) pool in
  let lo := series_min values in
  let hi := series_max values in
  if decide (hi = lo) then Qc_of_Z 100
  else ((1 / Expert_Rank p - lo) / (hi - lo) * Qc_of_Z 100)%Qc.

Definition spec_scarcity_bonus (pool : list player) (pos : string) : Qc :=
  let count := Z.of_nat (length (filter (λ q, Position q = pos) pool)) in
  Qc_max 0%Qc (Qc_of_Z (10 - count) * dec 0.1)%Qc.

(** The score of the specification for an available player [p]. *)
Definition spec_score (pool : list player) (st : draft_state) (p : player) : Qc :=
  (1 / Expert_Rank p
   + spec_need_bonus (spec_need (current_team st) st (Position p))
   + spec_relative_value pool p * dec 0.02
   + spec_scarcity_bonus pool (Position p)
   + spec_adp_value_bonus (get_current_draft_position st) (Expert_Rank p))%Qc.

(** The rosters as they come back from a snapshot: every key is the
    string that [json.dump] made of it. *)
Definition json_rosters (rosters : gmap py_key (list pick_info))
    : gmap py_key (list pick_info) :=
  dict_of_items ((λ kv, (json_key kv.1, kv.2)) <$> map_to_list rosters).

(** A file that [import_draft_state] cannot take a state from: it cannot
    be read as JSON, or its content is not an object, or the object has no
    entry [draft_state]. *)
Definition no_draft_state (file : option pyval) : Prop :=
  (v ← file ; items ← py_dict v ; py_get (inr "draft_state"%string) items)
  = None.

(** Every player name is in at most one pick of the history, and in at
    most one pick of all rosters together. *)
Definition drafted_once (st : draft_state) : Prop :=
  NoDup (pi_player_name <$> drafted_players st)
  ∧ ∀ (k1 k2 : py_key) (r1 r2 : list pick_info) (i j : nat) (p1 p2 : pick_info),
      team_rosters st !! k1 = Some r1 → team_rosters st !! k2 = Some r2 →
      r1 !! i = Some p1 → r2 !! j = Some p2 →
      pi_player_name p1 = pi_player_name p2 →
      k1 = k2 ∧ i = j.

(** ** A small player table for the examples *)

Definition sample_rows : list csv_row :=
  [ CsvRow "Ja'Marr Chase" "WR" "CIN" (Qc_of_Z 1);
    CsvRow "Bijan Robinson" "RB" "ATL" (Qc_of_Z 2);
    CsvRow "CeeDee Lamb" "WR" "DAL" (Qc_of_Z 3);
    CsvRow "Jahmyr Gibbs" "RB" "DET" (dec 4.5);
    CsvRow "Saquon Barkley" "RB" "PHI" (dec 4.5);
    CsvRow "Justin Jefferson" "WR" "MIN" (Qc_of_Z 6);
    CsvRow "Puka Nacua" "WR" "LAR" (Qc_of_Z 7);
    CsvRow "Malik Nabers" "WR" "NYG" (Qc_of_Z 8);
    CsvRow "Amon-Ra St. Brown" "WR" "DET" (Qc_of_Z 9);
    CsvRow "Nico Collins" "WR" "HOU" (Qc_of_Z 10);
    CsvRow "Ashton Jeanty" "RB" "LV" (Qc_of_Z 11);
    CsvRow "Brian Thomas" "WR" "JAC" (Qc_of_Z 12);
    CsvRow "Christian McCaffrey" "RB" "SF" (Qc_of_Z 13);
    CsvRow "Devon Achane" "RB" "MIA" (Qc_of_Z 14);
    CsvRow "Josh Allen" "QB" "BUF" (Qc_of_Z 20);
    CsvRow "Brock Bowers" "TE" "LV" (Qc_of_Z 25) ]%string.

Definition sample_players : list player := load_players sample_rows.

Definition sample_format : gmap string Z :=
  {[ "QB" := 1; "RB" := 2; "WR" := 3; "TE" := 1 ]}%string.

(** The draft after the format is set and the user's team, first on the
    clock, has taken Saquon Barkley. *)
Definition sample_calls : list op :=
  [ SetDraftFormat sample_format;
    RecordPick "Saquon Barkley" None None "2025-08-30T19:00:00" ]%string.
Definition sample_state : draft_state :=
  (perform_all sample_players sample_calls initial_state).2.

(** The same player recorded by two calls. *)
Definition repeated_calls : list op :=
  [ RecordPick "Saquon Barkley" None None "2025-08-30T19:00:00";
    RecordPick "Saquon Barkley" None None "2025-08-30T19:01:30" ]%string.
Definition repeated_state : draft_state :=
  (perform_all sample_players repeated_calls initial_state).2.

(** Thirteen picks of a twelve-team draft: a full first round and the
    first pick of the second. *)
Definition thirteen_calls : list op :=
  (λ name, RecordPick name None None "2025-08-30T19:00:00"%string)
    <$> take 13 (csv_name <$> sample_rows).

(** A rankings file in which every rank is written as an integer, so
    that pandas reads the column as [int64], and the draft after one pick
    from it. *)
Definition integer_rows : list csv_row :=
  [ CsvRow "Ja'Marr Chase" "WR" "CIN" (Qc_of_Z 1);
    CsvRow "Bijan Robinson" "RB" "ATL" (Qc_of_Z 2);
    CsvRow "CeeDee Lamb" "WR" "DAL" (Qc_of_Z 3) ]%string.
Definition integer_players : list player := load_players integer_rows.
Definition integer_state : draft_state :=
  (perform_all integer_players
     [ RecordPick "Bijan Robinson" None None "2025-08-30T19:00:00" ]%string
     initial_state).2.

(** A rankings file that gives a player the expert rank 0; [_load_data]
    keeps such a row. *)
Definition zero_rank_rows : list csv_row :=
  [ CsvRow "Ja'Marr Chase" "WR" "CIN" (Qc_of_Z 0);
    CsvRow "Bijan Robinson" "RB" "ATL" (Qc_of_Z 1);
    CsvRow "CeeDee Lamb" "WR" "DAL" (Qc_of_Z 2) ]%string.
Definition zero_rank_players : list player := load_players zero_rank_rows.

(** A draft of twelve teams in which the user, team 5, has not picked
    yet: team 1 took Ja'Marr Chase. *)
Definition early_calls : list op :=
  [ SetDraftFormat sample_format;
    SetDraftParameters 12 5;
    RecordPick "Ja'Marr Chase" None None "2025-08-30T19:00:00" ]%string.
Definition early_state : draft_state :=
  (perform_all sample_players early_calls initial_state).2.

(** ** Further definitions: set-up discipline *)

(** The draft parameters are set before the first pick is recorded, for at
    least one team. *)
Definition setup_first (st : draft_state) (o : op) : Prop :=
  match o with
  | SetDraftParameters total _ => drafted_players st = [] ∧ 1 ≤ total
  | _ => True
  end.

(** The team on the clock, as a function of the state. *)
Definition team_on_clock (st : draft_state) : Z :=
  (_calculate_current_team st).1.

(** ** Further definitions: ranking, value gaps and reasoning *)

(** Python's [l[:n]] and pandas' [head(n)]: the first [n] elements, and for
    a negative [n] all but the last [-n]. *)
Definition py_head {A} (n : Z) (l : list A) : list A :=
  if decide (0 ≤ n) then take (Z.to_nat n) l
  else take (length l - Z.to_nat (- n)) l.

(** A stable sort by descending key ([list.sort(key=..., reverse=True)],
    [sort_values(..., ascending=False)]): elements of equal key keep their
    order.  pandas does not promise that for its default sort; no property
    below depends on the order among equal keys. *)
Fixpoint insert_desc {A} (key : A → Qc) (x : A) (sorted : list A) : list A :=
  match sorted with
  | [] => [x]
  | y :: sorted' =>
      if decide (key x < key y)%Qc then y :: insert_desc key x sorted'
      else x :: sorted
  end.
Definition sort_desc {A} (key : A → Qc) (l : list A) : list A :=
  foldr (insert_desc key) [] l.

(** Python's [round(q, ndigits)]: the nearest multiple of [10^-ndigits],
    the even one of two equally near. *)
Definition py_round (q : Qc) (ndigits : nat) : Qc :=
  let scale := Qc_of_Z (10 ^ Z.of_nat ndigits) in
  let scaled := (q * scale)%Qc in
  let below := (Qnum scaled / Z.pos (Qden scaled))%Z in
  let rest := (scaled - Qc_of_Z below)%Qc in
  let nearest :=
    if decide (rest < dec 0.5)%Qc then below
    else if decide (dec 0.5 < rest)%Qc then below + 1
    else if Z.even below then below else below + 1 in
  (Qc_of_Z nearest / scale)%Qc.

(** The ADP bonus of the scoring loop, on its own. *)
Definition adp_value_bonus (current_pick : Z) (expert_rank : Qc) : Qc :=
  if decide (expert_rank < Qc_of_Z current_pick)%Qc then
    py_min ((Qc_of_Z current_pick - expert_rank) * dec 0.1)%Qc (dec 2.0)
  else 0%Qc.

(** An element of the result of [get_recommendations]. *)
Record recommendation := Recommendation {
  rec_rank : Z;
  rec_player_name : string;
  rec_position : string;
  rec_team : string;
  rec_expert_rank : Qc;
  rec_recommendation_score : Qc;
  rec_reasoning : string
}.

(** An element of the result of [get_best_available_players]. *)
Record best_available := BestAvailable {
  ba_player_name : string;
  ba_position : string;
  ba_team : string;
  ba_expert_rank : Qc;
  ba_value_score : Qc;
  ba_rank : Z;
  ba_type : string
}.

Section Ranking.
(** [self.players_df]. *)
Variable players_df : list player.
(** The text an f-string makes of a floating-point number. *)
Variable str_float : Qc → string.

(** [calculate_value_gaps]: per position of the draft format that still
    has available players, the ten most valuable of them. *)
Definition calculate_value_gaps (st : draft_state)
    : gmap string (list (string * Qc)) :=
  let available := get_available_players players_df st in
  map_imap (λ position _,
              let pos_players := filter (λ p, Position p = position) available in
              match pos_players with
              | [] => None
              | _ =>
                  Some ((λ row, (Name row, Value_Score row))
                          <$> py_head 10 (sort_desc Value_Score pos_players))
              end)
           (draft_format st).

(** The list [reasons] that [_generate_reasoning] builds.  The items of
    [team_needs] come in the order of [map_to_list], which decides the order
    of the positions after "Also need". *)
Definition reasons_of (st : draft_state) (ps : player_score)
    (team_needs : gmap string Z) : list string :=
  let position := ps_position ps in
  let current_pick := (round st - 1) * total_teams st + pick st in
  let adp :=
    if decide (ps_expert_rank ps < Qc_of_Z current_pick)%Qc then
      let adp_difference := (Qc_of_Z current_pick - ps_expert_rank ps)%Qc in
      if decide (Qc_of_Z 20 ≤ adp_difference)%Qc then
        ["EXCEPTIONAL VALUE: " +:+ str_float adp_difference
           +:+ " picks below ADP!"]
      else if decide (Qc_of_Z 10 ≤ adp_difference)%Qc then
        ["Great value: " +:+ str_float adp_difference +:+ " picks below ADP"]
      else
        ["Good value: " +:+ str_float adp_difference +:+ " picks below ADP"]
    else [] in
  let need :=
    if decide (0 < default 0 (team_needs !! position)) then
      ["Need " +:+ position +:+ " players"]
    else ["Position filled but value too good to pass up"] in
  let tier :=
    if decide (ps_expert_rank ps ≤ Qc_of_Z 50)%Qc then ["Top-tier talent"]
    else if decide (ps_expert_rank ps ≤ Qc_of_Z 100)%Qc then
      ["Strong value pick"]
    else [] in
  let pos_available :=
    length (filter (λ p, Position p = position)
                   (get_available_players players_df st)) in
  let scarcity :=
    if decide (pos_available ≤ 5)%nat then
      ["Only " +:+ pretty pos_available +:+ " " +:+ position
         +:+ " players left"]
    else [] in
  let other_positions_needed :=
    (filter (λ item, 0 < item.2 ∧ item.1 ≠ position) (map_to_list team_needs)).*1 in
  let others :=
    match other_positions_needed with
    | [] => []
    | _ => ["Also need: " +:+ String.concat ", " other_positions_needed]
    end in
  adp ++ need ++ tier ++ scarcity ++ others.

(** [_generate_reasoning]; its argument [value_gaps] is not read. *)
Definition _generate_reasoning (st : draft_state) (ps : player_score)
    (team_needs : gmap string Z)
    (value_gaps : gmap string (list (string * Qc))) : string :=
  match reasons_of st ps team_needs with
  | [] => "Good value for current draft position"
  | reasons => String.concat "; " reasons
  end.

(** [get_recommendations]: the scoring loop, then the ranking; [None] when
    the scoring loop raises. *)
Definition get_recommendations (num_recommendations : Z) (st : draft_state)
    : option (list recommendation) :=
  let your_needs := get_team_needs (current_team st) st in
  let value_gaps := calculate_value_gaps st in
  scores ← player_scores players_df st ;
  let sorted := sort_desc ps_score scores in
  Some (imap (λ i ps,
                {| rec_rank := Z.of_nat i + 1;
                   rec_player_name := Name (ps_player ps);
                   rec_position := Position (ps_player ps);
                   rec_team := Team (ps_player ps);
                   rec_expert_rank := Expert_Rank (ps_player ps);
                   rec_recommendation_score := py_round (ps_score ps) 4;
                   rec_reasoning :=
                     _generate_reasoning st ps your_needs value_gaps |})
             (py_head num_recommendations sorted)).

(** The column [combined_score] of [get_best_available_players]. *)
Definition combined_score (row : player * Qc) : Qc :=
  (Qc_of_Z 1 / Expert_Rank row.1 + row.2 * dec 0.01)%Qc.

(** [get_best_available_players]. *)
Definition get_best_available_players (num_players : Z) (st : draft_state)
    : list best_available :=
  let available := get_available_players players_df st in
  match available with
  | [] => []
  | _ =>
      let sorted := sort_desc combined_score (with_relative_value available) in
      imap (λ i row,
              {| ba_player_name := Name row.1;
                 ba_position := Position row.1;
                 ba_team := Team row.1;
                 ba_expert_rank := Expert_Rank row.1;
                 ba_value_score := py_round row.2 1;
                 ba_rank := Z.of_nat i + 1;
                 ba_type := "best_available" |})
           (py_head num_players sorted)
  end.
End Ranking.

(** The order of a list sorted by descending key. *)
Definition by_key_desc {A} (key : A → Qc) (x y : A) : Prop :=
  (key y ≤ key x)%Qc.

(** ** Further definitions: the pick endpoint of the web interface *)

(** The answer of [record_pick_api] in [web_interface.py], for an
    initialised assistant. *)
Inductive pick_answer :=
  | PickRecorded (message : string) (team_number : Z) (is_your_pick : bool)
                 (round_now pick_now : Z)
  | PickRefused (error : string).

Section WebInterface.
Variable players_df : list player.

(** [record_pick_api]: a team number of 0 counts as not given
    ([int(team_number) if team_number else None]); the answer is built
    from the state after the pick. *)
Definition record_pick_api (player_name : string) (team_number : option Z)
    (is_your_pick : option bool) (now : string) : M pick_answer :=
  let team_num :=
    match team_number with
    | Some t => if decide (t = 0) then None else Some t
    | None => None
    end in
  let is_your := is_your_pick in
  success <~ record_pick players_df player_name team_num is_your now ;;
  if success then
    summary <~ gets get_draft_summary ;;
    calculated_team <~ _calculate_current_team ;;
    calculated_is_yours <~ gets (λ st,
      bool_decide (calculated_team = current_team st)) ;;
    ret (PickRecorded
           ("Pick recorded: " +:+ player_name +:+ " to Team "
              +:+ pretty calculated_team)
           calculated_team calculated_is_yours
           (current_round summary) (current_pick summary))
  else
    ret (PickRefused ("Player " +:+ player_name +:+ " not found")).
End WebInterface.

(** ** Further definitions: the parameter dialogue of the command line *)

(** [get_draft_parameters] in [cli_demo.py].  An input is the integer that
    [int(input(...))] reads, or [None] when the text is not a number. *)
Definition get_draft_parameters (total_teams current_team : option Z)
    : option (Z * Z) :=
  total ← total_teams ;
  current ← current_team ;
  if decide (current < 1 ∨ current > total) then None
  else Some (total, current).

(** Choice 2 of the main loop of [cli_demo.py]. *)
Definition cli_set_draft_parameters (total_teams current_team : option Z)
    : M unit :=
  match get_draft_parameters total_teams current_team with
  | Some params => set_draft_parameters params.1 params.2
  | None => ret tt
  end.

(** ** Further definitions: states for the examples *)

(** The number of teams lowered to four after six picks of a round. *)
Definition shrunk_state : draft_state :=
  (set_draft_parameters 4 1 (advance_times 6 initial_state)).2.

(** A player score as the scoring loop builds it, for the first pick of
    the third round of a twelve-team draft. *)
Definition late_state : draft_state := advance_times 24 initial_state.
Definition early_ranked_score : player_score :=
  {| ps_player := Player "Ja'Marr Chase" "WR" "CIN" (Qc_of_Z 1) (Qc_of_Z 1);
     ps_score := Qc_of_Z 5;
     ps_position := "WR";
     ps_expert_rank := Qc_of_Z 1 |}.

(** A stand-in for the text of a floating-point number: its integer part. *)
Definition sample_str_float (q : Qc) : string :=
  pretty (Qnum q / Z.pos (Qden q)).

(** * Properties *)

(** Unfolds the monadic plumbing of a method. *)
Ltac run_monad :=
  unfold set_draft_format, set_draft_parameters, _calculate_current_team,
    _advance_draft_position, is_your_turn, bind, gets, modify, ret in *;
  simpl in *.

(** ** The position tracker *)

Lemma calculate_current_team_pure st :
  (_calculate_current_team st).2 = st.
Proof. run_monad. by case_decide. Qed.

Lemma mod2_odd (r : Z) : r `mod` 2 = 1 ↔ Z.odd r = true.
Proof.
  rewrite Zmod_odd. destruct (Z.odd r); split; intros H; first [done | lia | discriminate H].
Qed.

Lemma advance_fields st :
  total_teams (advance st) = total_teams st
  ∧ current_team (advance st) = current_team st
  ∧ draft_format (advance st) = draft_format st
  ∧ drafted_players (advance st) = drafted_players st
  ∧ team_rosters (advance st) = team_rosters st.
Proof. unfold advance. run_monad. by case_decide. Qed.

Lemma advance_position st :
  (pick st = total_teams st
   ∧ round (advance st) = round st + 1 ∧ pick (advance st) = 1)
  ∨ (pick st ≠ total_teams st
     ∧ round (advance st) = round st ∧ pick (advance st) = pick st + 1).
Proof. unfold advance. run_monad. case_decide; [left | right]; done. Qed.

Lemma set_pick_same st : set_pick (pick st) st = st.
Proof. by destruct st. Qed.

Lemma advance_times_within (n : nat) st :
  pick st + Z.of_nat n ≤ total_teams st →
  advance_times n st = set_pick (pick st + Z.of_nat n) st.
Proof.
  induction n as [|n IH]; intros Hle.
  - simpl. by rewrite Z.add_0_r, set_pick_same.
  - unfold advance_times in *. simpl. rewrite IH by lia.
    unfold advance. run_monad. case_decide; [lia |].
    unfold set_pick. simpl. f_equal. lia.
Qed.

(** C6: the team on the clock is the pick number in an odd round and its
    mirror image [total_teams - pick + 1] in an even round; computing it
    leaves the draft state as it is; and the teams at the same pick of two
    consecutive rounds add up to [total_teams + 1]. *)
Theorem team_on_clock_snake st :
  _calculate_current_team st
    = (if Z.odd (round st) then pick st else total_teams st - pick st + 1, st)
  ∧ (_calculate_current_team st).1
    + (_calculate_current_team (set_round (round st + 1) st)).1
    = total_teams st + 1.
Proof.
  run_monad.
  assert (Hodd : Z.odd (round st + 1) = negb (Z.odd (round st))).
  { by rewrite Z.add_1_r, Z.odd_succ, Z.negb_odd. }
  do 2 case_decide;
    repeat match goal with H : _ `mod` 2 = 1 |- _ => apply mod2_odd in H
                         | H : ¬ _ `mod` 2 = 1 |- _ => rewrite mod2_odd in H end;
    rewrite Hodd in *; destruct (Z.odd (round st)); simpl in *;
    try done; split; try done; lia.
Qed.

(** C9 (the code at the failing input): [set_draft_parameters] stores a
    [current_team] of 13 for a draft of 12 teams; nothing is rejected and
    the previous [current_team] is overwritten. *)
Theorem set_draft_parameters_out_of_range :
  set_draft_parameters 12 13 initial_state
    = (tt, set_current_team 13 (set_total_teams 12 initial_state))
  ∧ current_team (set_draft_parameters 12 13 initial_state).2 = 13
  ∧ current_team initial_state = 1.
Proof. done. Qed.

(** ** Recording a pick *)

Section RecordProperties.
Variable players_df : list player.

Lemma lookup_by_name_nil (name : string) :
  filter (λ p, Name p = name) players_df = [] ↔ name ∉ Name <$> players_df.
Proof.
  split.
  - intros Hnil [p [-> Hp]]%list_elem_of_fmap.
    eapply (filter_nil_not_elem_of _ _ p Hnil); [simpl; reflexivity | exact Hp].
  - intros Hnot. destruct (filter _ _) as [|p l] eqn:Hf; [done |].
    assert (Hp : p ∈ filter (λ p, Name p = name) players_df)
      by (rewrite Hf; left).
    apply list_elem_of_filter in Hp as [<- Hp].
    destruct Hnot. by apply list_elem_of_fmap_2.
Qed.

Lemma roster_append (team : Z) (pk : pick_info)
    (rosters : gmap py_key (list pick_info)) :
  alter (λ roster, roster ++ [pk]) (inl team)
    (match rosters !! (inl team : py_key) with
     | None => <[inl team := []]> rosters
     | Some _ => rosters
     end)
  = <[inl team := default [] (rosters !! (inl team : py_key)) ++ [pk]]> rosters.
Proof.
  apply map_eq. intros k. destruct (rosters !! inl team) as [r|] eqn:Hr.
  - rewrite lookup_alter, lookup_insert. case_decide; [subst k|done].
    by rewrite Hr.
  - by rewrite alter_insert_eq.
Qed.

(** What a call of [record_pick] does: nothing for a name that is not in
    the table; otherwise one pick, built from the state before the call,
    is appended to the history and to one roster, and the position
    advances. *)
Lemma record_pick_inv name t y now st b st' :
  record_pick players_df name t y now st = (b, st') →
  (b = false ∧ st' = st ∧ name ∉ Name <$> players_df)
  ∨ (b = true ∧ ∃ pd pk,
       head (filter (λ p, Name p = name) players_df) = Some pd
       ∧ pk = {| pi_player_name := name;
                 pi_team_number :=
                   default (_calculate_current_team st).1 t;
                 pi_position := Position pd;
                 pi_expert_rank := Expert_Rank pd;
                 pi_round := round st;
                 pi_pick := pick st;
                 pi_is_your_pick :=
                   default (bool_decide
                              (default (_calculate_current_team st).1 t
                               = current_team st)) y;
                 pi_timestamp := now |}
       ∧ st' = advance
                 (set_team_rosters
                    (<[inl (pi_team_number pk) :=
                         roster_of (pi_team_number pk) st ++ [pk]]>
                       (team_rosters st))
                    (set_drafted_players (drafted_players st ++ [pk]) st))).
Proof.
  unfold record_pick. intros Hrec.
  destruct (filter _ players_df) as [|pd l] eqn:Hf.
  - left. inversion Hrec; subst. by rewrite <- lookup_by_name_nil.
  - right. unfold bind at 1 2 3 4 5 6 7 in Hrec.
    assert (Hteam : (match t with
                     | Some t0 => ret t0
                     | None => _calculate_current_team
                     end) st
                    = (default (_calculate_current_team st).1 t, st)).
    { destruct t; [done |]. rewrite (surjective_pairing (_ st)).
      by rewrite calculate_current_team_pure. }
    rewrite Hteam in Hrec. clear Hteam.
    set (team := default (_calculate_current_team st).1 t) in *.
    assert (Hy : (match y with
                  | Some b0 => ret b0
                  | None => gets (λ st0, bool_decide (team = current_team st0))
                  end) st
                 = (default (bool_decide (team = current_team st)) y, st)).
    { by destruct y. }
    rewrite Hy in Hrec. clear Hy.
    unfold gets, modify, ret in Hrec. simpl in Hrec.
    rewrite (surjective_pairing (_advance_draft_position _)) in Hrec.
    inversion Hrec as [[Hb Hst]]. clear Hrec. split; [done |].
    eexists pd, _. split; [done |]. split; [reflexivity |].
    unfold advance, roster_of. simpl. rewrite <- roster_append.
    by destruct (team_rosters st !! inl team).
Qed.

Lemma record_pick_known name t y now st :
  name ∈ Name <$> players_df →
  (record_pick players_df name t y now st).1 = true.
Proof.
  intros Hin.
  destruct (record_pick players_df name t y now st) as [b st'] eqn:Hrec.
  apply record_pick_inv in Hrec as [(_ & _ & Hnot)|(-> & _)]; done.
Qed.
End RecordProperties.

Section RunProperties.
Variable players_df : list player.

(** The fields of the state after a successful [record_pick]. *)
Lemma record_pick_true name t y now st st' :
  record_pick players_df name t y now st = (true, st') →
  ∃ pk,
    pi_player_name pk = name
    ∧ pi_round pk = round st ∧ pi_pick pk = pick st
    ∧ pi_team_number pk = default (_calculate_current_team st).1 t
    ∧ pi_is_your_pick pk
      = default (bool_decide (pi_team_number pk = current_team st)) y
    ∧ drafted_players st' = drafted_players st ++ [pk]
    ∧ team_rosters st'
      = <[inl (pi_team_number pk) := roster_of (pi_team_number pk) st ++ [pk]]>
          (team_rosters st)
    ∧ total_teams st' = total_teams st
    ∧ current_team st' = current_team st
    ∧ draft_format st' = draft_format st
    ∧ ((pick st = total_teams st ∧ round st' = round st + 1 ∧ pick st' = 1)
       ∨ (pick st ≠ total_teams st
          ∧ round st' = round st ∧ pick st' = pick st + 1)).
Proof.
  intros [(? & _)|(_ & pd & pk & _ & Hpk & ->)]%record_pick_inv; [done |].
  exists pk.
  match goal with |- context [advance ?s] =>
    destruct (advance_fields s) as (-> & -> & -> & -> & ->);
    destruct (advance_position s) as [Hpos|Hpos]
  end; subst pk; simpl in *; repeat split; try done;
    (by left) || (by right).
Qed.

Lemma perform_all_cons o os st :
  perform_all players_df (o :: os) st
  = (let (b, st1) := perform players_df o st in
     let (bs, st2) := perform_all players_df os st1 in (b :: bs, st2)).
Proof. done. Qed.

Lemma perform_all_state o os st :
  (perform_all players_df (o :: os) st).2
  = (perform_all players_df os (perform players_df o st).2).2.
Proof.
  rewrite perform_all_cons.
  destruct (perform players_df o st) as [b st1]. simpl.
  by destruct (perform_all players_df os st1).
Qed.

(** The state after a sequence of admitted calls is reachable. *)
Lemma reachable_by_perform_all allowed os : ∀ st,
  reachable_by players_df allowed st →
  allowed_all players_df allowed os st →
  reachable_by players_df allowed (perform_all players_df os st).2.
Proof.
  induction os as [|o os IH]; intros st Hreach Hall; [done |].
  destruct Hall as [Ho Hall]. rewrite perform_all_state.
  apply IH; [|done]. by constructor.
Qed.

Lemma reachable_perform_all os st :
  reachable players_df st →
  reachable players_df (perform_all players_df os st).2.
Proof.
  intros Hreach. apply reachable_by_perform_all; [done |].
  clear Hreach. revert st. induction os; intros st; simpl; auto.
Qed.

(** A run of successful [record_pick] calls moves the overall position
    by one per call, keeps the pick number within the round, and files
    every pick under the position it was made at. *)
Lemma record_run os : ∀ st bs st',
  Forall is_record os →
  perform_all players_df os st = (bs, st') →
  Forall (λ b, b = true) bs →
  1 ≤ pick st ≤ total_teams st →
  total_teams st' = total_teams st
  ∧ 1 ≤ pick st' ≤ total_teams st
  ∧ get_current_draft_position st'
    = get_current_draft_position st + Z.of_nat (length os)
  ∧ ∃ picks,
      drafted_players st' = drafted_players st ++ picks
      ∧ length picks = length os
      ∧ ∀ (k : nat) pk, picks !! k = Some pk →
          1 ≤ pi_pick pk ≤ total_teams st
          ∧ (pi_round pk - 1) * total_teams st + pi_pick pk
            = get_current_draft_position st + Z.of_nat k.
Proof.
  induction os as [|o os IH]; intros st bs st' Hrec Hrun Hok Hpick.
  - inversion Hrun; subst. split; [done |]. split; [done |].
    split; [simpl; lia |].
    exists []. rewrite app_nil_r. split; [done |]. split; [done |].
    intros k pk Hk. by rewrite lookup_nil in Hk.
  - rewrite perform_all_cons in Hrun.
    destruct (perform players_df o st) as [b st1] eqn:Ho.
    destruct (perform_all players_df os st1) as [bs' st2] eqn:Hos.
    inversion Hrun; subst bs st2. clear Hrun.
    apply Forall_cons in Hok as [-> Hok].
    apply Forall_cons in Hrec as [Ho' Hrec].
    destruct o as [| |name t y now]; try done. simpl in Ho.
    apply record_pick_true in Ho
      as (pk & _ & Hr & Hp & _ & _ & Hd & _ & HT & _ & _ & Hpos).
    destruct (IH _ _ _ Hrec Hos Hok) as (HT' & Hp' & Hov & picks & Hd' & Hlen & Hpicks).
    { rewrite HT. destruct Hpos as [(? & ? & ->)|(? & ? & ->)]; lia. }
    assert (Hov1 : get_current_draft_position st1
                   = get_current_draft_position st + 1).
    { unfold get_current_draft_position. rewrite HT.
      destruct Hpos as [(Heq & -> & ->)|(? & -> & ->)]; [rewrite <- Heq|]; lia. }
    rewrite HT in *. split; [done |]. split; [done |]. split.
    { rewrite Hov, Hov1. simpl. lia. }
    exists (pk :: picks). split; [by rewrite Hd', Hd, <- app_assoc |].
    split; [simpl; by rewrite Hlen |].
    intros [|k] pk' Hk; simpl in Hk.
    + inversion Hk; subst pk'. rewrite Hr, Hp.
      unfold get_current_draft_position. lia.
    + apply Hpicks in Hk. rewrite Hov1 in Hk. lia.
Qed.
End RunProperties.

(** C3: [record_pick] for a name that is not in the loaded table returns
    [False] and leaves the whole draft state as it was: no pick joins the
    history or a roster and the position does not advance. *)
Theorem record_pick_unknown_player players_df name t y now st :
  name ∉ Name <$> players_df →
  record_pick players_df name t y now st = (false, st).
Proof.
  intros Hnot. unfold record_pick.
  by rewrite (proj2 (lookup_by_name_nil players_df name) Hnot).
Qed.

(** C10: a successful [record_pick] appends one pick to the history; when
    [team_number] is not given, the pick carries the snake-order team on
    the clock of the position before the call, which is also the position
    stored in the pick; when [is_your_pick] is not given, the pick is
    marked as the user's exactly when its team number is [current_team]. *)
Theorem record_pick_defaults players_df name t y now st st' :
  record_pick players_df name t y now st = (true, st') →
  ∃ pk,
    drafted_players st' = drafted_players st ++ [pk]
    ∧ team_rosters st' !! (inl (pi_team_number pk) : py_key)
      = Some (roster_of (pi_team_number pk) st ++ [pk])
    ∧ (pi_round pk, pi_pick pk) = (round st, pick st)
    ∧ (t = None →
       pi_team_number pk
       = if decide (round st `mod` 2 = 1) then pick st
         else total_teams st - pick st + 1)
    ∧ (y = None →
       (pi_is_your_pick pk = true ↔ pi_team_number pk = current_team st)).
Proof.
  intros (pk & _ & Hr & Hp & Ht & Hy & Hd & Hro & _)%record_pick_true.
  exists pk. split; [done |]. split; [by rewrite Hro, lookup_insert_eq |].
  split; [by rewrite Hr, Hp |]. split.
  - intros ->. rewrite Ht. simpl. run_monad. by case_decide.
  - intros ->. rewrite Hy. simpl. by rewrite bool_decide_eq_true.
Qed.

(** C7: [total_teams] advances from pick 1 of a round lead to pick 1 of
    the next round; and in a draft of 12 teams, thirteen successful
    [record_pick] calls from round 1, pick 1 leave the tracker at round 2,
    pick 2 with team 11 on the clock, each pick being filed under the
    position before its own advance. *)
Theorem advance_full_round_and_thirteen_picks :
  (∀ st, 1 ≤ total_teams st → pick st = 1 →
     advance_times (Z.to_nat (total_teams st)) st
     = set_pick 1 (set_round (round st + 1) st))
  ∧ (∀ players_df os st st',
       round st = 1 → pick st = 1 → total_teams st = 12 →
       length os = 13%nat → Forall is_record os →
       perform_all players_df os st = (replicate 13 true, st') →
       round st' = 2 ∧ pick st' = 2
       ∧ (_calculate_current_team st').1 = 11
       ∧ ∃ picks,
           drafted_players st' = drafted_players st ++ picks
           ∧ length picks = 13%nat
           ∧ ∀ (k : nat) pk, picks !! k = Some pk →
               pi_round pk = Z.of_nat k `div` 12 + 1
               ∧ pi_pick pk = Z.of_nat k `mod` 12 + 1).
Proof.
  split.
  - intros st HT Hp.
    replace (Z.to_nat (total_teams st))
      with (S (Z.to_nat (total_teams st - 1))) by lia.
    unfold advance_times. simpl. fold (advance_times (Z.to_nat (total_teams st - 1)) st).
    rewrite advance_times_within by lia.
    unfold advance. run_monad. case_decide; [|lia].
    by destruct st.
  - intros players_df os st st' Hr Hp HT Hlen Hrec Hrun.
    destruct (record_run players_df os st _ st' Hrec Hrun)
      as (HT' & Hp' & Hov & picks & Hd & Hl & Hpicks).
    { by apply Forall_replicate. }
    { lia. }
    unfold get_current_draft_position in *.
    rewrite HT', HT, Hr, Hp, Hlen in *.
    assert (round st' = 2 ∧ pick st' = 2) as [Hr' Hp''] by lia.
    split; [done |]. split; [done |]. split.
    { run_monad. rewrite Hr', Hp'', HT'. done. }
    exists picks. split; [done |]. split; [lia |].
    intros k pk Hk. apply Hpicks in Hk.
    Z.to_euclidean_division_equations. lia.
Qed.

(** ** Positional needs *)

Lemma position_counts_foldl (roster : list pick_info) (pos : string) :
  ∀ counts : gmap string Z,
    default 0
      (foldl (λ counts p,
                <[pi_position p := default 0 (counts !! pi_position p) + 1]> counts)
             counts roster !! pos)
    = default 0 (counts !! pos) + count_on_roster pos roster.
Proof.
  unfold count_on_roster.
  induction roster as [|p roster IH]; intros counts; simpl.
  - lia.
  - rewrite IH, filter_cons. destruct (decide (pi_position p = pos)) as [->|Hne].
    + rewrite lookup_insert_eq. simpl. lia.
    + by rewrite lookup_insert_ne.
Qed.

Lemma position_counts_spec (roster : list pick_info) (pos : string) :
  default 0 (position_counts roster !! pos) = count_on_roster pos roster.
Proof.
  unfold position_counts. by rewrite position_counts_foldl, lookup_empty.
Qed.

Lemma get_team_needs_roster team st roster pos :
  team_rosters st !! (inl team : py_key) = Some roster →
  get_team_needs team st !! pos
  = (λ required, Z.max 0 (required - count_on_roster pos roster))
      <$> draft_format st !! pos.
Proof.
  intros Hr. unfold get_team_needs. rewrite Hr, map_lookup_imap.
  destruct (draft_format st !! pos); simpl; [|done].
  by rewrite position_counts_spec.
Qed.

(** C8: for a draft format of non-negative slot counts, the needs of a
    team hold, for each position of the format and for no other position,
    [max 0 (required - count on the roster)]; no need is negative; and a
    team without recorded picks needs the whole format. *)
Theorem get_team_needs_spec team st :
  (∀ pos required, draft_format st !! pos = Some required → 0 ≤ required) →
  (∀ pos,
     get_team_needs team st !! pos
     = (λ required,
          Z.max 0 (required - count_on_roster pos (roster_of team st)))
         <$> draft_format st !! pos)
  ∧ (∀ pos need, get_team_needs team st !! pos = Some need → 0 ≤ need)
  ∧ (roster_of team st = [] → get_team_needs team st = draft_format st).
Proof.
  intros Hfmt.
  assert (Hlookup : ∀ pos,
    get_team_needs team st !! pos
    = (λ required,
         Z.max 0 (required - count_on_roster pos (roster_of team st)))
        <$> draft_format st !! pos).
  { intros pos. unfold roster_of.
    destruct (team_rosters st !! inl team) as [roster|] eqn:Hr.
    - by apply get_team_needs_roster.
    - unfold get_team_needs. rewrite Hr. simpl.
      destruct (draft_format st !! pos) as [required|] eqn:Hpos; [|done].
      simpl. f_equal. apply Hfmt in Hpos. unfold count_on_roster. simpl. lia. }
  split; [done |]. split.
  - intros pos need. rewrite Hlookup.
    destruct (draft_format st !! pos); simpl; [|done].
    intros [= <-]. lia.
  - intros Hempty. apply map_eq. intros pos. rewrite Hlookup, Hempty.
    destruct (draft_format st !! pos) as [required|] eqn:Hpos; [|done].
    simpl. f_equal. apply Hfmt in Hpos. unfold count_on_roster. simpl. lia.
Qed.

(** ** Availability *)

Section AvailabilityProperties.
Variable players_df : list player.

Lemma elem_of_available p st :
  p ∈ get_available_players players_df st
  ↔ p ∈ players_df ∧ Name p ∉ pi_player_name <$> drafted_players st.
Proof.
  unfold get_available_players.
  rewrite merge_sort_Permutation, list_elem_of_filter. tauto.
Qed.

(** A call never removes a pick from the history. *)
Lemma perform_history o st :
  ∃ picks, drafted_players (perform players_df o st).2
           = drafted_players st ++ picks.
Proof.
  destruct o as [fmt|total current|name t y now]; simpl.
  - by exists []; rewrite app_nil_r.
  - by exists []; rewrite app_nil_r.
  - destruct (record_pick players_df name t y now st) as [[] st'] eqn:Hrec;
      simpl.
    + apply record_pick_true in Hrec as (pk & _ & _ & _ & _ & _ & -> & _).
      by exists [pk].
    + apply record_pick_inv in Hrec as [(_ & -> & _)|(? & _)]; [|done].
      by exists []; rewrite app_nil_r.
Qed.

Lemma steps_history st st' :
  rtc (step players_df) st st' →
  ∃ picks, drafted_players st' = drafted_players st ++ picks.
Proof.
  induction 1 as [st|st st1 st2 [o ->] _ [picks ->]].
  - by exists []; rewrite app_nil_r.
  - destruct (perform_history o st) as [picks' ->].
    exists (picks' ++ picks). by rewrite app_assoc.
Qed.
End AvailabilityProperties.

(** C5: once a pick of a player has been recorded, no row of that name is
    among the available players, neither right after the call nor after
    any number of further calls. *)
Theorem drafted_player_never_available players_df name t y now st st1 st2 :
  record_pick players_df name t y now st = (true, st1) →
  rtc (step players_df) st1 st2 →
  name ∉ Name <$> get_available_players players_df st2.
Proof.
  intros (pk & Hname & _ & _ & _ & _ & Hd & _)%record_pick_true
         [picks Hlater]%steps_history.
  intros (p & -> & [_ Hp]%elem_of_available)%list_elem_of_fmap.
  apply Hp. rewrite Hlater, Hd, !fmap_app. simpl. rewrite Hname.
  apply elem_of_app. left. apply elem_of_app. right. left.
Qed.

(** ** Every player is drafted once *)

Section DraftedOnce.
Variable players_df : list player.

(** A call leaves the history and the rosters alone, or appends one pick
    of the named player to the history and to one roster. *)
Lemma perform_cases o st :
  (drafted_players (perform players_df o st).2 = drafted_players st
   ∧ team_rosters (perform players_df o st).2 = team_rosters st)
  ∨ (∃ name t y now pk,
       o = RecordPick name t y now
       ∧ pi_player_name pk = name
       ∧ drafted_players (perform players_df o st).2
         = drafted_players st ++ [pk]
       ∧ team_rosters (perform players_df o st).2
         = <[inl (pi_team_number pk) :=
               roster_of (pi_team_number pk) st ++ [pk]]> (team_rosters st)).
Proof.
  destruct o as [fmt|total current|name t y now]; simpl; [by left ..|].
  destruct (record_pick players_df name t y now st) as [[] st'] eqn:Hrec;
    simpl.
  - apply record_pick_true in Hrec
      as (pk & Hn & _ & _ & _ & _ & Hd & Hr & _).
    right. by exists name, t, y, now, pk.
  - apply record_pick_inv in Hrec as [(_ & -> & _)|(? & _)]; [|done].
    by left.
Qed.

(** Every pick on a roster is in the history. *)
Lemma rosters_in_history allowed st :
  reachable_by players_df allowed st →
  ∀ (k : py_key) roster p,
    team_rosters st !! k = Some roster → p ∈ roster →
    p ∈ drafted_players st.
Proof.
  induction 1 as [|st o _ IH _]; intros k roster p Hk Hp.
  - simpl in Hk. by rewrite lookup_empty in Hk.
  - destruct (perform_cases o st)
      as [[-> Hr]|(name & t & y & now & pk & _ & _ & -> & Hr)];
      rewrite Hr in Hk.
    + eauto.
    + apply elem_of_app.
      destruct (decide (k = inl (pi_team_number pk))) as [->|Hne].
      * rewrite lookup_insert_eq in Hk. injection Hk as <-.
        apply elem_of_app in Hp as [Hp|Hp]; [left|by right].
        unfold roster_of in Hp.
        destruct (team_rosters st !! inl (pi_team_number pk)) eqn:Hold;
          simpl in Hp; [eauto | by apply elem_of_nil in Hp].
      * rewrite lookup_insert_ne in Hk by done. left. eauto.
Qed.

Lemma roster_of_lookup team st (i : nat) p :
  roster_of team st !! i = Some p →
  ∃ roster, team_rosters st !! (inl team : py_key) = Some roster
            ∧ roster !! i = Some p.
Proof.
  unfold roster_of. destruct (team_rosters st !! inl team) as [r|]; simpl.
  - eauto.
  - by rewrite lookup_nil.
Qed.
End DraftedOnce.

(** C4 (amended): when every recorded pick names a player that no earlier
    pick names, each player name is in at most one pick of the history and
    in at most one pick of all rosters together. *)
Theorem undrafted_picks_drafted_once players_df st :
  reachable_by players_df records_undrafted st → drafted_once st.
Proof.
  intros Hreach. induction Hreach as [|st o Hreach [IHd IHr] Hallowed].
  - split; [constructor |]. intros k1 k2 r1 r2 i j p1 p2 Hk1.
    simpl in Hk1. by rewrite lookup_empty in Hk1.
  - pose proof (rosters_in_history players_df _ st Hreach) as Hin.
    unfold drafted_once.
    destruct (perform_cases players_df o st)
      as [[-> ->]|(name & t & y & now & pk & -> & Hname & -> & ->)];
      [done |].
    simpl in Hallowed.
    assert (Hold : ∀ (k : py_key) roster (i : nat) p,
              team_rosters st !! k = Some roster → roster !! i = Some p →
              pi_player_name p ≠ pi_player_name pk).
    { intros k roster i p Hk Hi Heq. apply Hallowed. rewrite <- Hname, <- Heq.
      apply list_elem_of_fmap_2. eapply Hin; [done |].
      by eapply list_elem_of_lookup_2. }
    split.
    + rewrite fmap_app. apply NoDup_app. split; [done |]. split.
      * intros x Hx [->|[]%elem_of_nil]%elem_of_cons. by rewrite Hname in Hx.
      * apply NoDup_singleton.
    + intros k1 k2 r1 r2 i j p1 p2 Hk1 Hk2 Hi Hj Heq.
      destruct (decide (k1 = inl (pi_team_number pk))) as [->|Hne1];
        destruct (decide (k2 = inl (pi_team_number pk))) as [->|Hne2].
      * rewrite lookup_insert_eq in Hk1, Hk2.
        injection Hk1 as <-. injection Hk2 as <-.
        apply lookup_snoc_Some in Hi as [[_ Hi]|[-> <-]];
          apply lookup_snoc_Some in Hj as [[_ Hj]|[-> <-]].
        -- apply roster_of_lookup in Hi as (r1 & Hr1 & Hi).
           apply roster_of_lookup in Hj as (r2 & Hr2 & Hj). eauto.
        -- apply roster_of_lookup in Hi as (r1 & Hr1 & Hi).
           by destruct (Hold _ _ _ _ Hr1 Hi).
        -- apply roster_of_lookup in Hj as (r2 & Hr2 & Hj).
           by destruct (Hold _ _ _ _ Hr2 Hj).
        -- done.
      * rewrite lookup_insert_eq in Hk1. rewrite lookup_insert_ne in Hk2 by done.
        injection Hk1 as <-.
        apply lookup_snoc_Some in Hi as [[_ Hi]|[-> <-]].
        -- apply roster_of_lookup in Hi as (r1 & Hr1 & Hi). eauto.
        -- by destruct (Hold _ _ _ _ Hk2 Hj).
      * rewrite lookup_insert_ne in Hk1 by done. rewrite lookup_insert_eq in Hk2.
        injection Hk2 as <-.
        apply lookup_snoc_Some in Hj as [[_ Hj]|[-> <-]].
        -- apply roster_of_lookup in Hj as (r2 & Hr2 & Hj). eauto.
        -- by destruct (Hold _ _ _ _ Hk1 Hi).
      * rewrite lookup_insert_ne in Hk1, Hk2 by done. eauto.
Qed.

(** ** The recommendation score *)

Lemma py_min_Qc_min (a b : Qc) : py_min a b = Qc_min a b.
Proof.
  unfold py_min, Qc_min.
  destruct (decide (b < a)%Qc) as [Hlt|Hnlt],
           (decide (a ≤ b)%Qc) as [Hle|Hnle]; try done.
  - by destruct (Qclt_not_le b a).
  - destruct Hnle. by apply Qcnot_lt_le.
Qed.

Lemma py_max_Qc_max (a b : Qc) : py_max a b = Qc_max a b.
Proof.
  unfold py_max, Qc_max.
  destruct (decide (a < b)%Qc) as [Hlt|Hnlt],
           (decide (a ≤ b)%Qc) as [Hle|Hnle]; try done.
  - destruct Hnle. by apply Qclt_le_weak.
  - destruct (Qcle_lt_or_eq a b Hle); done.
Qed.

Lemma py_min_le (a b : Qc) : (py_min a b ≤ a)%Qc ∧ (py_min a b ≤ b)%Qc.
Proof.
  unfold py_min. case_decide.
  - split; [by apply Qclt_le_weak | apply Qcle_refl].
  - split; [apply Qcle_refl | by apply Qcnot_lt_le].
Qed.

Lemma py_max_ge (a b : Qc) : (a ≤ py_max a b)%Qc ∧ (b ≤ py_max a b)%Qc.
Proof.
  unfold py_max. case_decide.
  - split; [by apply Qclt_le_weak | apply Qcle_refl].
  - split; [apply Qcle_refl | by apply Qcnot_lt_le].
Qed.

(** [foldl py_min] and [foldl py_max] pick the least and the greatest
    element. *)
Lemma foldl_py_min_least (col : list Qc) : ∀ v,
  foldl py_min v col ∈ v :: col
  ∧ ∀ x, x ∈ v :: col → (foldl py_min v col ≤ x)%Qc.
Proof.
  induction col as [|w col IH]; intros v; simpl.
  - split; [left |]. intros x [->|[]%elem_of_nil]%elem_of_cons.
    apply Qcle_refl.
  - destruct (IH (py_min v w)) as [Hin Hle]. split.
    + apply elem_of_cons in Hin as [->|Hin].
      * unfold py_min. case_decide; [right; left | left].
      * by do 2 right.
    + intros x Hx.
      assert (Hm : (foldl py_min (py_min v w) col ≤ py_min v w)%Qc)
        by (apply Hle; left).
      destruct (py_min_le v w) as [Hv Hw].
      apply elem_of_cons in Hx as [->|[->|Hx]%elem_of_cons].
      * by eapply Qcle_trans.
      * by eapply Qcle_trans.
      * apply Hle. by right.
Qed.

Lemma foldl_py_max_greatest (col : list Qc) : ∀ v,
  foldl py_max v col ∈ v :: col
  ∧ ∀ x, x ∈ v :: col → (x ≤ foldl py_max v col)%Qc.
Proof.
  induction col as [|w col IH]; intros v; simpl.
  - split; [left |]. intros x [->|[]%elem_of_nil]%elem_of_cons.
    apply Qcle_refl.
  - destruct (IH (py_max v w)) as [Hin Hle]. split.
    + apply elem_of_cons in Hin as [->|Hin].
      * unfold py_max. case_decide; [right; left | left].
      * by do 2 right.
    + intros x Hx.
      assert (Hm : (py_max v w ≤ foldl py_max (py_max v w) col)%Qc)
        by (apply Hle; left).
      destruct (py_max_ge v w) as [Hv Hw].
      apply elem_of_cons in Hx as [->|[->|Hx]%elem_of_cons].
      * by eapply Qcle_trans.
      * by eapply Qcle_trans.
      * apply Hle. by right.
Qed.

Lemma series_min_least (col : list Qc) :
  col ≠ [] →
  series_min col ∈ col ∧ ∀ x, x ∈ col → (series_min col ≤ x)%Qc.
Proof. destruct col; [done |]. intros _. apply foldl_py_min_least. Qed.

Lemma series_max_greatest (col : list Qc) :
  col ≠ [] →
  series_max col ∈ col ∧ ∀ x, x ∈ col → (x ≤ series_max col)%Qc.
Proof. destruct col; [done |]. intros _. apply foldl_py_max_greatest. Qed.

Lemma series_min_le_max (col : list Qc) : (series_min col ≤ series_max col)%Qc.
Proof.
  destruct col as [|v col]; [apply Qcle_refl |].
  destruct (series_min_least (v :: col)) as [_ Hmin]; [done |].
  destruct (series_max_greatest (v :: col)) as [_ Hmax]; [done |].
  eapply Qcle_trans; [apply (Hmin v) | apply (Hmax v)]; left.
Qed.

Lemma range_positive_iff (lo hi : Qc) :
  (lo ≤ hi)%Qc → (0 < hi - lo)%Qc ↔ hi ≠ lo.
Proof.
  intros Hle. unfold Qcminus. rewrite <- Qclt_minus_iff. split.
  - intros Hlt ->. by apply Qclt_not_eq in Hlt.
  - intros Hne. destruct (Qcle_lt_or_eq _ _ Hle) as [?| ->]; done.
Qed.

Lemma load_players_value_score rows p :
  p ∈ load_players rows → Value_Score p = (1 / Expert_Rank p)%Qc.
Proof.
  unfold load_players, _prepare_features.
  by intros (r & -> & _)%list_elem_of_fmap.
Qed.

Lemma load_players_names rows :
  Name <$> load_players rows ≡ₚ csv_name <$> rows.
Proof.
  unfold load_players, _prepare_features, _load_data.
  rewrite <- list_fmap_compose. simpl.
  by rewrite merge_sort_Permutation.
Qed.

Lemma load_players_rank_positive rows p :
  Forall (λ r, (0 < csv_expert_rank r)%Qc) rows →
  p ∈ load_players rows → (0 < Expert_Rank p)%Qc.
Proof.
  intros Hranks. unfold load_players, _prepare_features, _load_data.
  intros (r & -> & Hr)%list_elem_of_fmap. simpl.
  rewrite merge_sort_Permutation in Hr.
  by apply (proj1 (Forall_forall _ _) Hranks).
Qed.

Section ScoreProperties.
Variable players_df : list player.

Lemma available_names_NoDup st :
  NoDup (Name <$> players_df) →
  NoDup (Name <$> get_available_players players_df st).
Proof.
  intros Hnd. unfold get_available_players.
  rewrite merge_sort_Permutation.
  eapply sublist_NoDup; [exact Hnd |].
  apply fmap_sublist, sublist_filter.
Qed.

Lemma available_in_table st p :
  p ∈ get_available_players players_df st → p ∈ players_df.
Proof. by intros [? _]%elem_of_available. Qed.
End ScoreProperties.

(** Selecting the rows of a name from a frame whose names are distinct
    gives the one row of that name. *)
Lemma filter_by_name_unique (g : player → Qc) (available : list player) p :
  NoDup (Name <$> available) → p ∈ available →
  filter (λ r : player * Qc, Name r.1 = Name p) ((λ q, (q, g q)) <$> available)
  = [(p, g p)].
Proof.
  induction available as [|q available IH]; intros Hnd Hp.
  - by apply elem_of_nil in Hp.
  - rewrite fmap_cons in Hnd. apply NoDup_cons in Hnd as [Hq Hnd].
    rewrite fmap_cons, filter_cons. simpl.
    apply elem_of_cons in Hp as [->|Hp].
    + rewrite decide_True by done. f_equal.
      destruct (filter _ _) as [|r l] eqn:Hf; [done |].
      assert (Hr : r ∈ filter (λ r : player * Qc, Name r.1 = Name q)
                          ((λ q, (q, g q)) <$> available))
        by (rewrite Hf; left).
      apply list_elem_of_filter in Hr as [Hname (q' & -> & Hq')%list_elem_of_fmap].
      destruct Hq. simpl in Hname. rewrite <- Hname.
      by apply list_elem_of_fmap_2.
    + rewrite decide_False; [by apply IH |].
      intros Heq. apply Hq. rewrite Heq. by apply list_elem_of_fmap_2.
Qed.

Lemma filter_position_length (g : player → Qc) (available : list player) pos :
  length (filter (λ r : player * Qc, Position r.1 = pos)
                 ((λ q, (q, g q)) <$> available))
  = length (filter (λ q, Position q = pos) available).
Proof.
  induction available as [|q available IH]; [done |].
  rewrite fmap_cons, !filter_cons. simpl.
  destruct (decide (Position q = pos)); simpl; by rewrite IH.
Qed.

(** The column [relative_value] is the min-max normalization of
    [1 / Expert_Rank] when [Value_Score] is that quotient. *)
Lemma with_relative_value_spec (available : list player) :
  Forall (λ p, Value_Score p = (1 / Expert_Rank p)%Qc) available →
  with_relative_value available
  = (λ p, (p, spec_relative_value available p)) <$> available.
Proof.
  intros Hvs. destruct available as [|q available]; [done |].
  unfold with_relative_value, spec_relative_value.
  set (pool := q :: available) in *.
  assert (Hcol : Value_Score <$> pool = (λ q, (1 / Expert_Rank q)%Qc) <$> pool)
    by by apply Forall_fmap_ext.
  rewrite Hcol.
  set (lo := series_min _). set (hi := series_max _).
  pose proof (range_positive_iff lo hi (series_min_le_max _)) as Hrange.
  destruct (decide (0 < hi - lo)%Qc) as [Hpos|Hnpos],
           (decide (hi = lo)) as [Heq|Hne]; try tauto.
  apply Forall_fmap_ext. eapply Forall_impl; [exact Hvs |].
  intros p Hp. simpl in Hp. by rewrite Hp.
Qed.

Lemma need_bonus_spec team st pos :
  (if decide (0 < default 0 (get_team_needs team st !! pos)) then
     (Qc_of_Z (default 0%Z (get_team_needs team st !! pos)) * dec 0.3)%Qc
   else (- dec 0.2)%Qc)
  = spec_need_bonus (spec_need team st pos).
Proof.
  unfold spec_need_bonus, spec_need, roster_of. simpl.
  destruct (team_rosters st !! inl team) as [roster|] eqn:Hr.
  - rewrite (get_team_needs_roster _ _ roster) by done.
    by destruct (draft_format st !! pos).
  - unfold get_team_needs. rewrite Hr.
    destruct (draft_format st !! pos) as [required|]; simpl; [|done].
    unfold count_on_roster. simpl.
    do 2 case_decide; try done; try lia.
    by replace (Z.max 0 (required - Z.of_nat 0)) with required by lia.
Qed.

Lemma adp_value_bonus_spec (current_pick : Z) (rank : Qc) :
  (if decide (rank < Qc_of_Z current_pick)%Qc then
     py_min ((Qc_of_Z current_pick - rank) * dec 0.1)%Qc (dec 2.0)
   else 0%Qc)
  = spec_adp_value_bonus current_pick rank.
Proof.
  unfold spec_adp_value_bonus. rewrite py_min_Qc_min.
  destruct (decide (rank < Qc_of_Z current_pick)%Qc) as [Hlt|Hnlt],
           (decide (Qc_of_Z current_pick ≤ rank)%Qc) as [Hle|Hnle]; try done.
  - by destruct (Qclt_not_le _ _ Hlt).
  - destruct Hnle. by apply Qcnot_lt_le.
Qed.

(** C2: for a table loaded from rows with distinct names and positive
    expert ranks, the scoring loop of [get_recommendations] gives every
    available player, in the order of the available frame, the score
    [1 / expert_rank + need_bonus + value_bonus + scarcity_bonus
    + adp_value_bonus] of the specification. *)
Theorem recommendation_score_formula rows st :
  NoDup (csv_name <$> rows) →
  Forall (λ r, (0 < csv_expert_rank r)%Qc) rows →
  player_scores (load_players rows) st
  = Some ((λ p, {| ps_player := p;
                   ps_score :=
                     spec_score (get_available_players (load_players rows) st)
                                st p;
                   ps_position := Position p;
                   ps_expert_rank := Expert_Rank p |})
            <$> get_available_players (load_players rows) st).
Proof.
  intros Hnames Hranks. unfold player_scores.
  set (players_df := load_players rows).
  set (pool := get_available_players players_df st).
  assert (Hnd : NoDup (Name <$> pool)).
  { apply available_names_NoDup. unfold players_df.
    by rewrite load_players_names. }
  rewrite with_relative_value_spec.
  2:{ apply Forall_forall. intros p Hp.
      by apply load_players_value_score with rows, available_in_table with st. }
  apply mapM_Some, Forall2_fmap, Forall_Forall2_diag, Forall_forall.
  intros p Hp. unfold score_player. simpl.
  assert (Hrank : Expert_Rank p ≠ 0%Qc).
  { apply not_symmetry, Qclt_not_eq.
    apply load_players_rank_positive with rows; [exact Hranks |].
    apply (available_in_table players_df st p Hp). }
  destruct (decide (Expert_Rank p = 0%Qc)) as [Hzero|_]; [done |]. simpl.
  rewrite (filter_by_name_unique _ pool p Hnd Hp). simpl.
  rewrite filter_position_length, py_max_Qc_max.
  rewrite (need_bonus_spec (current_team st) st (Position p)).
  rewrite adp_value_bonus_spec.
  done.
Qed.

(** ** The snapshot *)

Lemma pick_of_py_to_py p : pick_of_py (pick_to_py float64 p) = Some p.
Proof. by destruct p. Qed.

Lemma json_dump_picks (picks : list pick_info) :
  mapM json_dump (pick_to_py float64 <$> picks)
  = Some (pick_to_py float64 <$> picks).
Proof.
  by apply mapM_Some, Forall2_fmap, Forall_Forall2_diag, Forall_forall.
Qed.

Lemma picks_roundtrip (picks : list pick_info) :
  picks_of_py (PList (pick_to_py float64 <$> picks)) = Some picks.
Proof.
  unfold picks_of_py. simpl. apply mapM_fmap_Some. intros p.
  apply pick_of_py_to_py.
Qed.

Lemma dict_of_items_to_list `{Countable K} {A} (m : gmap K A) :
  dict_of_items (map_to_list m) = m.
Proof.
  unfold dict_of_items. rewrite <- (list_to_map_to_list m) at 2.
  apply list_to_map_proper.
  - rewrite reverse_Permutation. apply NoDup_fst_map_to_list.
  - apply reverse_Permutation.
Qed.

Lemma json_dump_format (items : list (string * Z)) :
  mapM (λ kv : py_key * pyval, v' ← json_dump kv.2 ; Some (json_key kv.1, v'))
       ((λ kv, (inr kv.1, PInt kv.2)) <$> items)
  = Some ((λ kv, (inr kv.1, PInt kv.2)) <$> items).
Proof.
  by apply mapM_Some, Forall2_fmap, Forall_Forall2_diag, Forall_forall.
Qed.

Lemma format_roundtrip (fmt : gmap string Z) :
  format_of_py (PDict ((λ kv, (inr kv.1, PInt kv.2)) <$> map_to_list fmt))
  = Some fmt.
Proof.
  unfold format_of_py. simpl.
  rewrite mapM_fmap_Some by (by intros []). simpl.
  by rewrite dict_of_items_to_list.
Qed.

Lemma json_dump_rosters (items : list (py_key * list pick_info)) :
  mapM (λ kv : py_key * pyval, v' ← json_dump kv.2 ; Some (json_key kv.1, v'))
       ((λ kv, (kv.1, PList (pick_to_py float64 <$> kv.2))) <$> items)
  = Some ((λ kv, (json_key kv.1, PList (pick_to_py float64 <$> kv.2)))
            <$> items).
Proof.
  apply mapM_Some, Forall2_fmap, Forall_Forall2_diag, Forall_forall.
  intros [k roster] _. simpl. by rewrite json_dump_picks.
Qed.

Lemma rosters_roundtrip (rosters : gmap py_key (list pick_info)) :
  rosters_of_py
    (PDict ((λ kv, (json_key kv.1, PList (pick_to_py float64 <$> kv.2)))
              <$> map_to_list rosters))
  = Some (json_rosters rosters).
Proof.
  unfold rosters_of_py, json_rosters. simpl.
  assert (Hitems : ∀ l : list (py_key * list pick_info),
    mapM roster_item_of_py
      ((λ kv, (json_key kv.1, PList (pick_to_py float64 <$> kv.2))) <$> l)
    = Some ((λ kv, (json_key kv.1, kv.2)) <$> l)).
  { intros l. apply mapM_Some, Forall2_fmap, Forall_Forall2_diag, Forall_forall.
    intros [k roster] _. unfold roster_item_of_py. simpl.
    pose proof (picks_roundtrip roster) as Hr. simpl in Hr. by rewrite Hr. }
  by rewrite Hitems.
Qed.

(** No roster of a snapshot is filed under an integer. *)
Lemma json_rosters_no_int rosters (team : Z) :
  json_rosters rosters !! (inl team : py_key) = None.
Proof.
  unfold json_rosters, dict_of_items. apply not_elem_of_list_to_map_1.
  rewrite <- fmap_reverse, <- list_fmap_compose.
  intros ([k r] & Hk & _)%list_elem_of_fmap. simpl in Hk. by destruct k.
Qed.

(** With a floating-point rank column [json.dump] writes the state, and
    what [json.load] reads back is the state with its rosters filed under
    strings. *)
Lemma state_roundtrip st :
  ∃ v, json_dump (state_to_py float64 st) = Some v
       ∧ state_of_py v
         = Some (set_team_rosters (json_rosters (team_rosters st)) st).
Proof.
  eexists. split.
  - unfold state_to_py. simpl.
    rewrite json_dump_format, json_dump_picks, json_dump_rosters. simpl.
    reflexivity.
  - unfold state_of_py.
    pose proof (format_roundtrip (draft_format st)) as Hfmt.
    pose proof (picks_roundtrip (drafted_players st)) as Hpicks.
    pose proof (rosters_roundtrip (team_rosters st)) as Hrosters.
    simpl in *. by rewrite Hfmt, Hpicks, Hrosters.
Qed.

Lemma import_export players_df now st cur :
  ∃ doc v,
    export_draft_state players_df float64 now st = Some doc
    ∧ import_draft_state (Some doc) cur = (true, v)
    ∧ state_of_py v
      = Some (set_team_rosters (json_rosters (team_rosters st)) st).
Proof.
  destruct (state_roundtrip st) as (v & Hdump & Hv).
  unfold export_draft_state, export_data.
  eexists _, v. split; [|split; [|exact Hv]].
  - simpl. simpl in Hdump. rewrite Hdump. simpl. reflexivity.
  - reflexivity.
Qed.

(** With an integer rank column a recorded pick holds a [numpy.int64], at
    which [json.dump] raises: no state with a pick is exported. *)
Lemma export_int64_raises players_df now st :
  drafted_players st ≠ [] →
  export_draft_state players_df int64 now st = None.
Proof.
  intros Hpicks. destruct (drafted_players st) as [|p picks] eqn:Hd; [done |].
  unfold export_draft_state, export_data, state_to_py. rewrite Hd. simpl.
  by rewrite json_dump_format.
Qed.

(** C1 (amended): for a player table whose rank column is floating point,
    [export_draft_state] writes a document, and importing it succeeds and
    restores round, pick, number of teams, user's team, draft format and
    pick history, hence the same current round, current pick, overall
    draft position, number of drafted players and next-pick estimate in
    the summary, and the whole summary when the user's team has no roster
    yet; and a file that is unreadable, is not a JSON object or has no
    [draft_state] entry makes the import report failure and keep the prior
    state. *)
Theorem import_export_roundtrip players_df now st cur :
  (∃ doc st',
     export_draft_state players_df float64 now st = Some doc
     ∧ (import_draft_state (Some doc) cur).1 = true
     ∧ state_of_py (import_draft_state (Some doc) cur).2 = Some st'
     ∧ round st' = round st ∧ pick st' = pick st
     ∧ total_teams st' = total_teams st
     ∧ current_team st' = current_team st
     ∧ draft_format st' = draft_format st
     ∧ drafted_players st' = drafted_players st
     ∧ current_round (get_draft_summary st') = current_round (get_draft_summary st)
     ∧ current_pick (get_draft_summary st') = current_pick (get_draft_summary st)
     ∧ current_draft_position (get_draft_summary st')
       = current_draft_position (get_draft_summary st)
     ∧ total_drafted (get_draft_summary st') = total_drafted (get_draft_summary st)
     ∧ next_pick_estimate (get_draft_summary st')
       = next_pick_estimate (get_draft_summary st)
     ∧ (team_rosters st !! (inl (current_team st) : py_key) = None →
        get_draft_summary st' = get_draft_summary st))
  ∧ (∀ file, no_draft_state file → import_draft_state file cur = (false, cur)).
Proof.
  split.
  - destruct (import_export players_df now st cur) as (doc & v & Hdoc & Himp & Hv).
    exists doc, (set_team_rosters (json_rosters (team_rosters st)) st).
    rewrite Himp. simpl fst. simpl snd.
    split; [exact Hdoc |]. split; [done |]. split; [exact Hv |].
    do 11 (split; [done |]).
    intros Hnone. unfold get_draft_summary, get_team_needs. simpl.
    by rewrite json_rosters_no_int, Hnone.
  - intros [[| | | | | | |items]|] Hfile; try done.
    unfold no_draft_state in Hfile. simpl in *. by rewrite Hfile.
Qed.

(** C1 (counterexample): after one pick of the user's team, the summary of
    the imported snapshot has an empty roster and the needs of the whole
    format, where the summary before the export had the pick and one
    running back less to find; a document whose [draft_state] has no
    field at all is imported with success; and for a table of integer
    ranks no document is written once a pick is recorded: the export
    raises, and an import of its file fails. *)
Lemma import_export_changes_summary :
  reachable sample_players sample_state
  ∧ (∃ doc st',
       export_draft_state sample_players float64 "2025-08-30T20:00:00"
                          sample_state
       = Some doc
       ∧ (import_draft_state (Some doc) (state_to_py float64 sample_state)).1
         = true
       ∧ state_of_py
           (import_draft_state (Some doc) (state_to_py float64 sample_state)).2
         = Some st'
       ∧ length (your_roster (get_draft_summary sample_state)) = 1%nat
       ∧ your_roster (get_draft_summary st') = []
       ∧ your_needs (get_draft_summary sample_state) !! "RB"%string = Some 1
       ∧ your_needs (get_draft_summary st') !! "RB"%string = Some 2
       ∧ get_draft_summary st' ≠ get_draft_summary sample_state)
  ∧ import_draft_state (Some (PDict [(inr "draft_state"%string, PDict [])]))
      (state_to_py float64 sample_state)
    = (true, PDict [])
  ∧ state_of_py (PDict []) = None
  ∧ reachable integer_players integer_state
  ∧ length (drafted_players integer_state) = 1%nat
  ∧ export_draft_state integer_players int64 "2025-08-30T20:00:00"
                       integer_state
    = None
  ∧ import_draft_state
      (export_draft_state integer_players int64 "2025-08-30T20:00:00"
                          integer_state)
      (state_to_py int64 integer_state)
    = (false, state_to_py int64 integer_state).
Proof.
  assert (Hint : export_draft_state integer_players int64 "2025-08-30T20:00:00"
                                    integer_state = None)
    by by apply export_int64_raises.
  split; [apply reachable_perform_all; constructor |].
  split; [|split; [done |]; split; [done |];
           split; [apply reachable_perform_all; constructor |];
           split; [by vm_compute |]; split; [exact Hint |];
           by rewrite Hint].
  destruct (import_export sample_players "2025-08-30T20:00:00" sample_state
              (state_to_py float64 sample_state)) as (doc & v & Hdoc & Himp & Hv).
  exists doc,
    (set_team_rosters (json_rosters (team_rosters sample_state)) sample_state).
  rewrite Himp. simpl fst. simpl snd.
  split; [exact Hdoc |]. split; [done |]. split; [exact Hv |].
  split; [by vm_compute |]. split; [by vm_compute |].
  split; [by vm_compute |]. split; [by vm_compute |].
  intros Heq. apply (f_equal (λ s, length (your_roster s))) in Heq.
  vm_compute in Heq. discriminate Heq.
Qed.

(** C4 (counterexample): [record_pick] accepts the same player twice; the
    history then holds two picks of one name. *)
Lemma same_player_recorded_twice :
  (perform_all sample_players repeated_calls initial_state).1 = [true; true]
  ∧ reachable sample_players repeated_state
  ∧ pi_player_name <$> drafted_players repeated_state
    = ["Saquon Barkley"; "Saquon Barkley"]%string
  ∧ ¬ drafted_once repeated_state.
Proof.
  split; [by vm_compute |].
  split; [apply reachable_perform_all; constructor |].
  assert (Hnames : pi_player_name <$> drafted_players repeated_state
                   = ["Saquon Barkley"; "Saquon Barkley"]%string)
    by by vm_compute.
  split; [done |]. intros [Hnd _]. rewrite Hnames in Hnd.
  apply NoDup_cons in Hnd as [Hnot _]. apply Hnot. left.
Qed.

(** ** The theorems at concrete drafts *)

Lemma import_export_roundtrip_witness :
  team_rosters early_state !! (inl (current_team early_state) : py_key) = None
  ∧ no_draft_state (Some (PList []))
  ∧ (∃ doc st',
       export_draft_state sample_players float64 "2025-08-30T20:00:00"
                          early_state
       = Some doc
       ∧ state_of_py
           (import_draft_state (Some doc) (state_to_py float64 initial_state)).2
         = Some st'
       ∧ length (drafted_players st') = 1%nat
       ∧ get_draft_summary st' = get_draft_summary early_state)
  ∧ import_draft_state (Some (PList [])) (state_to_py float64 early_state)
    = (false, state_to_py float64 early_state).
Proof.
  assert (Hnone : team_rosters early_state
                    !! (inl (current_team early_state) : py_key) = None)
    by (vm_compute; reflexivity).
  assert (Hfile : no_draft_state (Some (PList []))) by reflexivity.
  destruct (import_export_roundtrip sample_players "2025-08-30T20:00:00"
              early_state (state_to_py float64 initial_state))
    as [(doc & st' & Hdoc & _ & Hst' & _ & _ & _ & _ & _ & Hpicks
         & _ & _ & _ & _ & _ & Hsum) _].
  destruct (import_export_roundtrip sample_players "2025-08-30T20:00:00"
              early_state (state_to_py float64 early_state)) as [_ Hbad].
  split; [exact Hnone |]. split; [exact Hfile |]. split.
  - exists doc, st'. split; [exact Hdoc |]. split; [exact Hst' |].
    split; [rewrite Hpicks; vm_compute; reflexivity | exact (Hsum Hnone)].
  - exact (Hbad _ Hfile).
Defined.

Lemma recommendation_score_formula_witness :
  NoDup (csv_name <$> sample_rows)
  ∧ Forall (λ r, (0 < csv_expert_rank r)%Qc) sample_rows
  ∧ player_scores (load_players sample_rows) sample_state
    = Some ((λ p, {| ps_player := p;
                     ps_score :=
                       spec_score
                         (get_available_players (load_players sample_rows)
                                                sample_state)
                         sample_state p;
                     ps_position := Position p;
                     ps_expert_rank := Expert_Rank p |})
              <$> get_available_players (load_players sample_rows) sample_state).
Proof.
  assert (Hnames : NoDup (csv_name <$> sample_rows))
    by (apply (bool_decide_unpack _); vm_compute; exact I).
  assert (Hranks : Forall (λ r, (0 < csv_expert_rank r)%Qc) sample_rows)
    by (apply (bool_decide_unpack _); vm_compute; exact I).
  split; [exact Hnames |]. split; [exact Hranks |].
  exact (recommendation_score_formula sample_rows sample_state Hnames Hranks).
Defined.

Lemma record_pick_unknown_player_witness :
  ("Tom Brady"%string ∉ Name <$> sample_players)
  ∧ record_pick sample_players "Tom Brady" (Some 3) None "2025-08-30T19:05:00"
      sample_state
    = (false, sample_state).
Proof.
  assert (Hnot : "Tom Brady"%string ∉ Name <$> sample_players)
    by (apply (bool_decide_unpack _); vm_compute; exact I).
  split; [exact Hnot |].
  exact (record_pick_unknown_player sample_players _ _ _ _ _ Hnot).
Defined.

Lemma undrafted_picks_drafted_once_witness :
  let st := (perform_all sample_players thirteen_calls initial_state).2 in
  reachable_by sample_players records_undrafted st
  ∧ length (drafted_players st) = 13%nat
  ∧ length <$> team_rosters st !! (inl 12 : py_key) = Some 2%nat
  ∧ drafted_once st.
Proof.
  intros st.
  assert (Hreach : reachable_by sample_players records_undrafted st).
  { apply reachable_by_perform_all; [constructor |].
    repeat (split; [apply (bool_decide_unpack _); vm_compute; exact I |]).
    exact I. }
  split; [exact Hreach |]. split; [vm_compute; reflexivity |].
  split; [vm_compute; reflexivity |].
  exact (undrafted_picks_drafted_once sample_players st Hreach).
Defined.

Lemma drafted_player_never_available_witness :
  let call := record_pick sample_players "Bijan Robinson" None None
                "2025-08-30T19:02:00" sample_state in
  let later := (perform sample_players
                  (RecordPick "CeeDee Lamb" None None "2025-08-30T19:04:00")
                  call.2).2 in
  call = (true, call.2)
  ∧ rtc (step sample_players) call.2 later
  ∧ "Bijan Robinson"%string ∉ Name <$> get_available_players sample_players later.
Proof.
  intros call later.
  assert (Hcall : call = (true, call.2)) by (vm_compute; reflexivity).
  assert (Hlater : rtc (step sample_players) call.2 later).
  { eapply rtc_l; [|apply rtc_refl]. by eexists. }
  split; [exact Hcall |]. split; [exact Hlater |].
  exact (drafted_player_never_available sample_players _ _ _ _ _ _ _
           Hcall Hlater).
Defined.

Lemma advance_full_round_and_thirteen_picks_witness :
  advance_times 12 initial_state = set_pick 1 (set_round 2 initial_state)
  ∧ (let st' := (perform_all sample_players thirteen_calls initial_state).2 in
     round st' = 2 ∧ pick st' = 2 ∧ (_calculate_current_team st').1 = 11).
Proof.
  destruct advance_full_round_and_thirteen_picks as [Hround Hpicks].
  split.
  - apply (Hround initial_state); [simpl; lia | reflexivity].
  - intros st'.
    assert (Hrun : perform_all sample_players thirteen_calls initial_state
                   = (replicate 13 true, st')) by (vm_compute; reflexivity).
    assert (Hrec : Forall is_record thirteen_calls)
      by (repeat constructor).
    destruct (Hpicks sample_players thirteen_calls initial_state st'
                eq_refl eq_refl eq_refl eq_refl Hrec Hrun)
      as (Hr & Hp & Ht & _).
    split; [exact Hr |]. split; [exact Hp | exact Ht].
Defined.

Lemma get_team_needs_spec_witness :
  (∀ pos required,
     draft_format sample_state !! pos = Some required → 0 ≤ required)
  ∧ get_team_needs 1 sample_state !! "RB"%string = Some 1
  ∧ get_team_needs 7 sample_state = draft_format sample_state.
Proof.
  assert (Hfmt : map_Forall (λ (_ : string) required, 0 ≤ required)
                            (draft_format sample_state))
    by (apply (bool_decide_unpack _); vm_compute; exact I).
  destruct (get_team_needs_spec 1 sample_state Hfmt) as (Hneeds & _ & _).
  destruct (get_team_needs_spec 7 sample_state Hfmt) as (_ & _ & Hfull).
  split; [exact Hfmt |]. split.
  - rewrite Hneeds. vm_compute. reflexivity.
  - apply Hfull. vm_compute. reflexivity.
Defined.

Lemma record_pick_defaults_witness :
  let call := record_pick sample_players "Bijan Robinson" None None
                "2025-08-30T19:02:00" sample_state in
  call = (true, call.2)
  ∧ ∃ pk, drafted_players call.2 = drafted_players sample_state ++ [pk]
          ∧ pi_team_number pk = 2
          ∧ (pi_is_your_pick pk = true ↔ 2 = current_team sample_state).
Proof.
  intros call.
  assert (Hcall : call = (true, call.2)) by (vm_compute; reflexivity).
  destruct (record_pick_defaults sample_players _ _ _ _ _ _ Hcall)
    as (pk & Hd & _ & _ & Ht & Hy).
  split; [exact Hcall |]. exists pk. split; [exact Hd |].
  assert (Hteam : pi_team_number pk = 2) by exact (Ht eq_refl).
  split; [exact Hteam |]. rewrite <- Hteam. exact (Hy eq_refl).
Defined.

(** * Further properties of the engine *)

(** ** The tracker along a draft *)

Lemma advance_overall st :
  get_current_draft_position (advance st) = get_current_draft_position st + 1.
Proof.
  unfold get_current_draft_position.
  destruct (advance_fields st) as (-> & _).
  destruct (advance_position st) as [(Heq & -> & ->)|(_ & -> & ->)]; [|lia].
  rewrite <- Heq. lia.
Qed.

(** X1: every advance moves the overall draft position by exactly one, at
    the end of a round as within it, whatever the state; so a successful
    [record_pick] moves it by one and a refused one leaves it. *)
Theorem overall_position_counts_picks players_df name t y now st :
  get_current_draft_position (advance st) = get_current_draft_position st + 1
  ∧ get_current_draft_position
      (record_pick players_df name t y now st).2
    = get_current_draft_position st
      + (if (record_pick players_df name t y now st).1 then 1 else 0).
Proof.
  split; [apply advance_overall |].
  destruct (record_pick players_df name t y now st) as [b st'] eqn:Hrec.
  apply record_pick_inv in Hrec as [(-> & -> & _)|(-> & pd & pk & _ & _ & ->)].
  - simpl. lia.
  - simpl. rewrite advance_overall. unfold get_current_draft_position. simpl.
    lia.
Qed.

(** X2: in a draft whose parameters are set before the first pick, for at
    least one team, the pick number stays within [1, total_teams], rounds
    start at 1, and the overall draft position is the number of recorded
    picks plus one. *)
Theorem tracker_invariant players_df st :
  reachable_by players_df setup_first st →
  1 ≤ total_teams st ∧ 1 ≤ round st ∧ 1 ≤ pick st ≤ total_teams st
  ∧ get_current_draft_position st
    = Z.of_nat (length (drafted_players st)) + 1.
Proof.
  unfold get_current_draft_position.
  induction 1 as [|st o _ (HT & Hr & Hp & Hov) Hallowed]; [simpl; lia |].
  destruct o as [fmt|total current|name t y now]; simpl in *.
  - done.
  - destruct Hallowed as [Hnil Htotal]. rewrite Hnil in *. simpl in *.
    assert (round st = 1 ∧ pick st = 1) as [-> ->] by nia. lia.
  - destruct (record_pick players_df name t y now st) as [[] st'] eqn:Hrec;
      simpl.
    + apply record_pick_true in Hrec
        as (pk & _ & _ & _ & _ & _ & -> & _ & -> & _ & _ & Hpos).
      rewrite length_app. simpl.
      destruct Hpos as [(Heq & -> & ->)|(Hne & -> & ->)]; [rewrite <- Heq in *|];
        repeat split; lia.
    + apply record_pick_inv in Hrec as [(_ & -> & _)|(? & _)]; done.
Qed.

(** X3: when the pick number is beyond [total_teams] (the number of teams
    was lowered in the middle of a round), no advance ever closes the
    round: the round stays and the pick number grows by one each time. *)
Theorem advance_beyond_total_teams (n : nat) st :
  total_teams st < pick st →
  advance_times n st = set_pick (pick st + Z.of_nat n) st.
Proof.
  intros Hgt. induction n as [|n IH].
  - simpl. by rewrite Z.add_0_r, set_pick_same.
  - unfold advance_times in *. simpl. rewrite IH.
    unfold advance. run_monad. case_decide; [lia |].
    unfold set_pick. simpl. f_equal. lia.
Qed.

Lemma team_on_clock_value st :
  team_on_clock st
  = if Z.odd (round st) then pick st else total_teams st - pick st + 1.
Proof.
  unfold team_on_clock. run_monad.
  case_decide as Hodd; [apply mod2_odd in Hodd | rewrite mod2_odd in Hodd];
    by destruct (Z.odd (round st)).
Qed.

(** X4: from the first pick of a round, the teams on the clock along the
    round are 1, 2, ..., total_teams in an odd round and total_teams, ...,
    2, 1 in an even round: every team is on the clock exactly once. *)
Theorem round_order st (k : nat) :
  pick st = 1 → Z.of_nat k < total_teams st →
  team_on_clock (advance_times k st)
  = if Z.odd (round st) then Z.of_nat k + 1 else total_teams st - Z.of_nat k.
Proof.
  intros Hp Hk. rewrite advance_times_within by lia.
  rewrite team_on_clock_value. simpl. rewrite Hp.
  destruct (Z.odd (round st)); lia.
Qed.

Lemma is_your_turn_value st :
  is_your_turn st = (bool_decide (team_on_clock st = current_team st), st).
Proof.
  unfold is_your_turn, team_on_clock, bind, gets.
  rewrite (surjective_pairing (_calculate_current_team st)).
  by rewrite calculate_current_team_pure.
Qed.

(** X5: [is_your_turn] leaves the state alone, and a pick recorded without
    team number and without ownership flag is marked as the user's exactly
    when [is_your_turn] held before the call. *)
Theorem is_your_turn_marks_pick players_df name now st st' :
  record_pick players_df name None None now st = (true, st') →
  (is_your_turn st).2 = st
  ∧ ∃ pk, last (drafted_players st') = Some pk
          ∧ pi_is_your_pick pk = (is_your_turn st).1.
Proof.
  intros (pk & _ & _ & _ & Ht & Hy & Hd & _)%record_pick_true.
  rewrite is_your_turn_value. split; [done |].
  exists pk. split; [by rewrite Hd, last_snoc |].
  rewrite Hy, Ht. done.
Qed.

(** X6: with pick number and user's team within [1, total_teams] the
    next-pick estimate lies in [1, total_teams]; and in an odd round, when
    the user's team has not picked yet, it is exact: the user is on the
    clock after that many advances and not before. *)
Theorem estimate_next_pick_bounds_and_odd_round st :
  1 ≤ pick st ≤ total_teams st →
  1 ≤ current_team st ≤ total_teams st →
  1 ≤ _estimate_next_pick st ≤ total_teams st
  ∧ (Z.odd (round st) = true → pick st < current_team st →
     (is_your_turn
        (advance_times (Z.to_nat (_estimate_next_pick st)) st)).1 = true
     ∧ ∀ k : nat, Z.of_nat k < _estimate_next_pick st →
         (is_your_turn (advance_times k st)).1 = false).
Proof.
  intros Hp Hc. unfold _estimate_next_pick. split.
  - case_decide; lia.
  - intros Hodd Hlt. rewrite decide_True by done. split.
    + rewrite advance_times_within by lia.
      rewrite is_your_turn_value, team_on_clock_value. simpl. rewrite Hodd.
      apply bool_decide_eq_true. lia.
    + intros k Hk. rewrite advance_times_within by lia.
      rewrite is_your_turn_value, team_on_clock_value. simpl. rewrite Hodd.
      apply bool_decide_eq_false. lia.
Qed.

(** ** The roster ledger *)

Lemma roster_of_insert team team' roster st :
  roster_of team (set_team_rosters (<[inl team' := roster]> (team_rosters st)) st)
  = if decide (team = team') then roster else roster_of team st.
Proof.
  unfold roster_of. simpl. case_decide as Heq.
  - subst. by rewrite lookup_insert_eq.
  - rewrite lookup_insert_ne; [done |]. by intros [= ->].
Qed.

Lemma rosters_filter_history players_df st :
  reachable players_df st →
  (∀ team,
     roster_of team st
     = filter (λ pk, pi_team_number pk = team) (drafted_players st))
  ∧ (∀ (k : py_key) roster,
       team_rosters st !! k = Some roster →
       roster ≠ [] ∧ ∃ team, k = inl team).
Proof.
  induction 1 as [|st o _ [IHr IHk] _].
  - split; [done |]. intros k roster Hk. simpl in Hk.
    by rewrite lookup_empty in Hk.
  - destruct (perform_cases players_df o st)
      as [[Hd Hr]|(name & t & y & now & pk & _ & _ & Hd & Hr)].
    + unfold roster_of in *. rewrite Hd, Hr. by split.
    + split.
      * intros team. unfold roster_of at 1. rewrite Hd, Hr, filter_app.
        destruct (decide (team = pi_team_number pk)) as [->|Hne].
        -- rewrite lookup_insert_eq. simpl. rewrite IHr.
           by rewrite filter_cons_True.
        -- rewrite lookup_insert_ne by congruence.
           fold (roster_of team st). rewrite IHr.
           rewrite filter_cons_False by done. by rewrite app_nil_r.
      * intros k roster. rewrite Hr.
        destruct (decide (k = inl (pi_team_number pk))) as [->|Hne].
        -- rewrite lookup_insert_eq. intros [= <-]. split; [|by eauto].
           by intros [_ ?]%app_eq_nil.
        -- rewrite lookup_insert_ne by done. apply IHk.
Qed.

(** X7: in every state a draft reaches, the roster of a team is the pick
    history restricted to that team, in draft order, and so is the roster
    of the user's team in the draft summary; rosters are filed under
    integer team numbers only, and no filed roster is empty. *)
Theorem rosters_follow_history players_df st :
  reachable players_df st →
  (∀ team,
     roster_of team st
     = filter (λ pk, pi_team_number pk = team) (drafted_players st))
  ∧ your_roster (get_draft_summary st)
    = filter (λ pk, pi_team_number pk = current_team st) (drafted_players st)
  ∧ (∀ (k : py_key) roster,
       team_rosters st !! k = Some roster →
       roster ≠ [] ∧ ∃ team, k = inl team).
Proof.
  intros [Hr Hk]%rosters_filter_history.
  split; [done |]. split; [apply (Hr (current_team st)) | done].
Qed.

Lemma count_on_roster_snoc pos roster pk :
  count_on_roster pos (roster ++ [pk])
  = count_on_roster pos roster + (if decide (pi_position pk = pos) then 1 else 0).
Proof.
  unfold count_on_roster. rewrite filter_app, length_app, filter_cons.
  case_decide; simpl; lia.
Qed.

(** The needs of a team by position, for a format without negative slot
    counts. *)
Lemma get_team_needs_lookup team st pos :
  (∀ pos required, draft_format st !! pos = Some required → 0 ≤ required) →
  get_team_needs team st !! pos
  = (λ required, Z.max 0 (required - count_on_roster pos (roster_of team st)))
      <$> draft_format st !! pos.
Proof.
  intros Hfmt. unfold roster_of.
  destruct (team_rosters st !! inl team) as [roster|] eqn:Hr.
  - by apply get_team_needs_roster.
  - unfold get_team_needs. rewrite Hr. simpl.
    destruct (draft_format st !! pos) as [required|] eqn:Hpos; [|done].
    simpl. f_equal. apply Hfmt in Hpos. unfold count_on_roster. simpl. lia.
Qed.

(** X8: for a format without negative slot counts, a recorded pick lowers
    the need of its team at the position of the player by one, unless that
    need was already zero; the team's needs at other positions and the
    needs of every other team stay as they were. *)
Theorem record_pick_lowers_need players_df name t y now st st' :
  (∀ pos required, draft_format st !! pos = Some required → 0 ≤ required) →
  record_pick players_df name t y now st = (true, st') →
  ∃ pk,
    last (drafted_players st') = Some pk
    ∧ (∀ pos,
         get_team_needs (pi_team_number pk) st' !! pos
         = (λ need, if decide (pi_position pk = pos) then Z.max 0 (need - 1)
                    else need)
             <$> get_team_needs (pi_team_number pk) st !! pos)
    ∧ (∀ other, other ≠ pi_team_number pk →
         get_team_needs other st' = get_team_needs other st).
Proof.
  intros Hfmt (pk & _ & _ & _ & _ & _ & Hd & Hr & _ & _ & Hf & _)%record_pick_true.
  exists pk. split; [by rewrite Hd, last_snoc |]. split.
  - intros pos.
    rewrite (get_team_needs_roster _ st' (roster_of (pi_team_number pk) st ++ [pk]))
      by (by rewrite Hr, lookup_insert_eq).
    rewrite get_team_needs_lookup by done. rewrite Hf.
    destruct (draft_format st !! pos) as [required|]; [|done]. simpl.
    rewrite count_on_roster_snoc. f_equal. case_decide; lia.
  - intros other Hne. unfold get_team_needs. rewrite Hr, Hf.
    rewrite lookup_insert_ne; [done |]. congruence.
Qed.

(** ** The availability index *)

Global Instance by_expert_rank_total {A} (rank : A → Qc) :
  Total (by_expert_rank rank).
Proof. intros x y. unfold by_expert_rank. apply Qc_le_total. Qed.

Global Instance by_expert_rank_trans {A} (rank : A → Qc) :
  Transitive (by_expert_rank rank).
Proof. intros x y z. unfold by_expert_rank. apply Qcle_trans. Qed.

Global Instance by_expert_rank_refl {A} (rank : A → Qc) :
  Reflexive (by_expert_rank rank).
Proof. intros x. unfold by_expert_rank. apply Qcle_refl. Qed.

Lemma StronglySorted_lookup_le {A} (R : relation A) `{!Reflexive R} l :
  StronglySorted R l →
  ∀ (i j : nat) x y, (i ≤ j)%nat → l !! i = Some x → l !! j = Some y → R x y.
Proof.
  induction 1 as [|z l Hl IH Hz]; intros i j x y Hij Hi Hj.
  - by rewrite lookup_nil in Hi.
  - destruct i as [|i], j as [|j]; simpl in *.
    + by simplify_eq.
    + simplify_eq. eapply Forall_forall; [exact Hz |].
      by eapply list_elem_of_lookup_2.
    + lia.
    + eapply (IH i j); [lia | done..].
Qed.

(** X10: a successful [record_pick] takes from the available players
    exactly the rows of the recorded name; every other row stays. *)
Theorem record_pick_removes_name players_df name t y now st st' :
  record_pick players_df name t y now st = (true, st') →
  get_available_players players_df st'
    ≡ₚ filter (λ p, Name p ≠ name) (get_available_players players_df st).
Proof.
  intros (pk & Hname & _ & _ & _ & _ & Hd & _)%record_pick_true.
  unfold get_available_players. rewrite !merge_sort_Permutation.
  rewrite list_filter_filter, Hd, fmap_app. simpl. rewrite Hname.
  erewrite list_filter_iff; [done |].
  intros p. simpl. rewrite not_elem_of_app, list_elem_of_singleton. tauto.
Qed.

Section Counting.
Variable players_df : list player.

(** Every recorded pick names a row of the table. *)
Lemma history_names_in_table allowed st :
  reachable_by players_df allowed st →
  ∀ pk, pk ∈ drafted_players st → pi_player_name pk ∈ Name <$> players_df.
Proof.
  induction 1 as [|st o _ IH _]; intros pk Hpk.
  - by apply elem_of_nil in Hpk.
  - destruct o as [fmt|total current|name t y now]; simpl in Hpk; [by eauto..|].
    destruct (record_pick players_df name t y now st) as [b st'] eqn:Hrec.
    apply record_pick_inv in Hrec as [(_ & -> & _)|(_ & pd & pk' & Hpd & Hpk' & ->)];
      simpl in Hpk; [by eauto |].
    destruct (advance_fields
                (set_team_rosters
                   (<[inl (pi_team_number pk'):=
                        roster_of (pi_team_number pk') st ++ [pk']]>
                      (team_rosters st))
                   (set_drafted_players (drafted_players st ++ [pk']) st)))
      as (_ & _ & _ & Hd & _).
    rewrite Hd in Hpk. simpl in Hpk.
    apply elem_of_app in Hpk as [Hpk|Hpk%list_elem_of_singleton]; [by eauto |].
    subst pk pk'. simpl.
    destruct (decide (name ∈ Name <$> players_df)) as [|Hnot]; [done |].
    by rewrite (proj2 (lookup_by_name_nil players_df name) Hnot) in Hpd.
Qed.

(** The names of the history are distinct when no call records a drafted
    player. *)
Lemma history_names_NoDup st :
  reachable_by players_df records_undrafted st →
  NoDup (pi_player_name <$> drafted_players st).
Proof.
  induction 1 as [|st o _ IH Hallowed]; [constructor |].
  destruct (perform_cases players_df o st)
    as [[-> _]|(name & t & y & now & pk & -> & Hname & -> & _)]; [done |].
  simpl in Hallowed. rewrite fmap_app. apply NoDup_app.
  split; [done |]. split; [|apply NoDup_singleton].
  intros x Hx [->|[]%elem_of_nil]%elem_of_cons. by rewrite Hname in Hx.
Qed.

(** The rows of a table with distinct names that a duplicate-free list of
    table names leaves over. *)
Lemma undrafted_count (drafted : list string) :
  NoDup (Name <$> players_df) → NoDup drafted →
  (∀ name, name ∈ drafted → name ∈ Name <$> players_df) →
  (length (filter (λ p, Name p ∉ drafted) players_df) + length drafted
   = length players_df)%nat.
Proof.
  intros Hnames Hdrafted Hin.
  assert (Hperm : Name <$> filter (λ p, ¬ (Name p ∉ drafted)) players_df
                  ≡ₚ drafted).
  { apply NoDup_Permutation; [|done|].
    - eapply sublist_NoDup; [exact Hnames |].
      apply fmap_sublist, sublist_filter.
    - intros name. rewrite list_elem_of_fmap. split.
      + intros (p & -> & [Hp _]%list_elem_of_filter).
        by destruct (decide (Name p ∈ drafted)).
      + intros Hname. pose proof (Hin _ Hname) as Hp.
        apply list_elem_of_fmap in Hp as (p & -> & Hp).
        exists p. split; [done |]. apply list_elem_of_filter. split; [|done].
        by intros Hnot. }
  apply Permutation_length in Hperm. rewrite length_fmap in Hperm.
  pose proof (Permutation_length
                (filter_app_complement (λ p, Name p ∉ drafted) players_df))
    as Hsplit.
  rewrite length_app in Hsplit. lia.
Qed.

Lemma available_count st :
  NoDup (Name <$> players_df) →
  reachable_by players_df records_undrafted st →
  (length (get_available_players players_df st) + length (drafted_players st)
   = length players_df)%nat.
Proof.
  intros Hnames Hreach. unfold get_available_players.
  rewrite merge_sort_Permutation.
  rewrite <- (length_fmap pi_player_name (drafted_players st)).
  apply undrafted_count; [done | by apply history_names_NoDup |].
  intros name (pk & -> & Hpk)%list_elem_of_fmap.
  by eapply history_names_in_table.
Qed.
End Counting.

(** X11: for a table with distinct names and a draft in which no call
    records an already drafted player, the available players and the
    recorded picks together are as many as the rows of the table. *)
Theorem available_plus_drafted players_df st :
  NoDup (Name <$> players_df) →
  reachable_by players_df records_undrafted st →
  Z.of_nat (length (get_available_players players_df st))
  + total_drafted (get_draft_summary st)
  = Z.of_nat (length players_df).
Proof.
  intros Hnames Hreach. simpl.
  pose proof (available_count players_df st Hnames Hreach). lia.
Qed.

(** ** Sorting and cutting *)

Global Instance by_key_desc_trans {A} (key : A → Qc) :
  Transitive (by_key_desc key).
Proof. intros x y z Hxy Hyz. unfold by_key_desc in *. by eapply Qcle_trans. Qed.

Global Instance by_key_desc_refl {A} (key : A → Qc) :
  Reflexive (by_key_desc key).
Proof. intros x. apply Qcle_refl. Qed.

Lemma insert_desc_Permutation {A} (key : A → Qc) x (l : list A) :
  insert_desc key x l ≡ₚ x :: l.
Proof.
  induction l as [|y l IH]; simpl; [done |].
  case_decide; [|done]. rewrite IH. apply Permutation_swap.
Qed.

Lemma sort_desc_Permutation {A} (key : A → Qc) (l : list A) :
  sort_desc key l ≡ₚ l.
Proof.
  induction l as [|x l IH]; simpl; [done |].
  by rewrite insert_desc_Permutation, IH.
Qed.

Lemma insert_desc_Sorted {A} (key : A → Qc) x (l : list A) :
  Sorted (by_key_desc key) l → Sorted (by_key_desc key) (insert_desc key x l).
Proof.
  induction 1 as [|y l Hl IH Hy]; simpl.
  - by repeat constructor.
  - case_decide as Hlt.
    + constructor; [done |].
      destruct l as [|z l]; simpl in *.
      * constructor. by apply Qclt_le_weak.
      * case_decide; constructor; [by inversion Hy | by apply Qclt_le_weak].
    + constructor; [by constructor |]. constructor. by apply Qcnot_lt_le.
Qed.

Lemma sort_desc_StronglySorted {A} (key : A → Qc) (l : list A) :
  StronglySorted (by_key_desc key) (sort_desc key l).
Proof.
  apply Sorted_StronglySorted; [apply _ |].
  induction l as [|x l IH]; simpl; [constructor |].
  by apply insert_desc_Sorted.
Qed.

Lemma py_head_take {A} (n : Z) (l : list A) :
  ∃ k : nat, py_head n l = take k l
    ∧ Z.of_nat (length (py_head n l))
      = if decide (0 ≤ n) then Z.min n (Z.of_nat (length l))
        else Z.max 0 (Z.of_nat (length l) + n).
Proof.
  unfold py_head. case_decide.
  - eexists. split; [done |]. rewrite length_take. lia.
  - eexists. split; [done |]. rewrite length_take. lia.
Qed.

Lemma py_head_lookup {A} (n : Z) (l : list A) (i : nat) x :
  py_head n l !! i = Some x → l !! i = Some x.
Proof.
  destruct (py_head_take n l) as (k & -> & _).
  by intros [? _]%lookup_take_Some.
Qed.

Lemma py_head_first {A} (n : Z) (l : list A) :
  1 ≤ n → py_head n l !! 0%nat = l !! 0%nat.
Proof.
  intros Hn. unfold py_head. rewrite decide_True by lia.
  apply lookup_take_lt. lia.
Qed.

(** ** The scoring loop *)

Lemma with_relative_value_rows (available : list player) :
  (with_relative_value available).*1 = available.
Proof.
  unfold with_relative_value. destruct available as [|p available]; [done |].
  case_decide; rewrite <- list_fmap_compose; apply list_fmap_id.
Qed.

Lemma score_player_Some st your_needs (available : list (player * Qc)) row :
  row ∈ available → Expert_Rank row.1 ≠ 0%Qc →
  is_Some (score_player st your_needs available row).
Proof.
  intros Hrow Hrank. unfold score_player.
  destruct (decide (Expert_Rank row.1 = 0%Qc)) as [Hzero|_]; [done |].
  destruct (filter (λ r : player * Qc, Name r.1 = Name row.1) available)
    as [|r l] eqn:Hf.
  - by destruct (filter_nil_not_elem_of _ _ row Hf).
  - simpl. by eexists.
Qed.

Lemma score_player_inv st your_needs (available : list (player * Qc)) row e :
  score_player st your_needs available row = Some e →
  Expert_Rank row.1 ≠ 0%Qc
  ∧ ps_player e = row.1
  ∧ ps_position e = Position row.1
  ∧ ps_expert_rank e = Expert_Rank row.1.
Proof.
  unfold score_player.
  destruct (decide (Expert_Rank row.1 = 0%Qc)) as [Hzero|Hrank]; [done |].
  destruct (filter (λ r : player * Qc, Name r.1 = Name row.1) available)
    as [|r l]; [done |].
  simpl. by intros [= <-].
Qed.

Lemma mapM_Some_with {A B} (f : A → option B) (P : A → B → Prop)
    (l : list A) (k : list B) :
  Forall (λ x, ∀ y, f x = Some y → P x y) l →
  mapM f l = Some k → Forall2 P l k.
Proof.
  intros Hall Hk%mapM_Some_1.
  induction Hk; inversion Hall; subst; constructor; eauto.
Qed.

Lemma player_scores_rows players_df st scores :
  player_scores players_df st = Some scores →
  Forall2 (λ (row : player * Qc) e,
             ps_player e = row.1 ∧ ps_position e = Position row.1
             ∧ ps_expert_rank e = Expert_Rank row.1)
          (with_relative_value (get_available_players players_df st)) scores.
Proof.
  unfold player_scores. apply mapM_Some_with, Forall_forall.
  intros row Hrow e He. by apply score_player_inv in He as (_ & He).
Qed.

(** The scoring loop runs through exactly when no available player has
    the expert rank 0. *)
Lemma player_scores_is_Some players_df st :
  is_Some (player_scores players_df st)
  ↔ Forall (λ p, Expert_Rank p ≠ 0%Qc) (get_available_players players_df st).
Proof.
  unfold player_scores. rewrite mapM_is_Some.
  rewrite <- (with_relative_value_rows (get_available_players players_df st))
    at 3.
  rewrite Forall_fmap. split; intros Hall; apply Forall_forall; intros row Hrow.
  - destruct (proj1 (Forall_forall _ _) Hall row Hrow) as [e He].
    by apply score_player_inv in He as (Hrank & _).
  - apply score_player_Some; [done |].
    apply (proj1 (Forall_forall _ _) Hall row Hrow).
Qed.

Lemma player_scores_players players_df st scores :
  player_scores players_df st = Some scores →
  ps_player <$> scores = get_available_players players_df st.
Proof.
  intros Hscores%player_scores_rows.
  rewrite <- (with_relative_value_rows (get_available_players players_df st)).
  induction Hscores as [|row e rows scores (Hp & _) _ IH]; [done |].
  rewrite !fmap_cons. by rewrite Hp, IH.
Qed.

(** X12: the scoring loop of [get_recommendations] runs through exactly
    when no available player has the expert rank 0 (at such a row
    [1 / player['Expert_Rank']] raises); its look-up of a player's relative
    value never fails; and when it runs through it yields one score per
    available player, in the order of the available frame, with that
    player's position and expert rank. *)
Theorem player_scores_unless_rank_zero players_df st :
  (is_Some (player_scores players_df st)
   ↔ Forall (λ p, Expert_Rank p ≠ 0%Qc) (get_available_players players_df st))
  ∧ ∀ scores,
      player_scores players_df st = Some scores →
      ps_player <$> scores = get_available_players players_df st
      ∧ Forall (λ e, ps_position e = Position (ps_player e)
                     ∧ ps_expert_rank e = Expert_Rank (ps_player e)) scores.
Proof.
  split; [apply player_scores_is_Some |].
  intros scores Hscores. split; [by apply player_scores_players |].
  apply player_scores_rows in Hscores.
  induction Hscores as [|row e rows scores (Hp & Hpos & Hrank) _ IH];
    constructor; [|done].
  by rewrite Hp.
Qed.

(** ** Relative value *)

Lemma Qc_scale_unit (a b : Qc) :
  (0 ≤ a)%Qc → (a ≤ b)%Qc → (0 < b)%Qc →
  (0 ≤ a / b * Qc_of_Z 100)%Qc ∧ (a / b * Qc_of_Z 100 ≤ Qc_of_Z 100)%Qc.
Proof.
  intros Ha Hab Hb.
  assert (Hinv : (0 < / b)%Qc) by by apply Qcinv_pos.
  assert (H100 : (0 ≤ Qc_of_Z 100)%Qc)
    by (rewrite <- Z2Qc_inj_0; by apply Z2Qc_inj_le).
  assert (Hq0 : (0 ≤ a / b)%Qc).
  { unfold Qcdiv. apply Qcmult_nonneg_nonneg; [done | by apply Qclt_le_weak]. }
  assert (Hq1 : (a / b ≤ 1)%Qc).
  { unfold Qcdiv. rewrite <- (Qcmult_inv_r b) by (by apply not_symmetry, Qclt_not_eq).
    apply Qcmult_le_mono_nonneg_r; [by apply Qclt_le_weak | done]. }
  split.
  - by apply Qcmult_nonneg_nonneg.
  - rewrite <- (Qcmult_1_l (Qc_of_Z 100)) at 2.
    by apply Qcmult_le_mono_nonneg_r.
Qed.

(** X13: every relative value lies between 0 and 100; a player whose value
    score is the greatest of the pool gets 100, and, when the value scores
    of the pool differ, a player with the least gets 0. *)
Theorem relative_value_range (available : list player) :
  Forall (λ row : player * Qc,
            (0 ≤ row.2)%Qc ∧ (row.2 ≤ Qc_of_Z 100)%Qc
            ∧ (Value_Score row.1 = series_max (Value_Score <$> available) →
               row.2 = Qc_of_Z 100)
            ∧ (Value_Score row.1 = series_min (Value_Score <$> available) →
               series_min (Value_Score <$> available)
               ≠ series_max (Value_Score <$> available) →
               row.2 = 0%Qc))
         (with_relative_value available).
Proof.
  apply Forall_forall. intros row Hrow.
  destruct available as [|p0 available]; [by apply elem_of_nil in Hrow |].
  unfold with_relative_value in Hrow.
  set (col := Value_Score <$> p0 :: available) in *.
  destruct (series_min_least col) as [_ Hlo]; [done |].
  destruct (series_max_greatest col) as [_ Hhi]; [done |].
  pose proof (range_positive_iff _ _ (series_min_le_max col)) as Hrange.
  assert (H100 : (0 ≤ Qc_of_Z 100)%Qc)
    by (rewrite <- Z2Qc_inj_0; by apply Z2Qc_inj_le).
  destruct (decide (0 < series_max col - series_min col)%Qc) as [Hpos|Hnpos].
  - apply list_elem_of_fmap in Hrow as (p & -> & Hp). simpl.
    assert (Hv : Value_Score p ∈ col) by by apply list_elem_of_fmap_2.
    destruct (Qc_scale_unit (Value_Score p - series_min col)
                            (series_max col - series_min col)) as [H0 H1].
    { unfold Qcminus. rewrite <- Qcle_minus_iff. by apply Hlo. }
    { unfold Qcminus. apply Qcplus_le_mono_r. by apply Hhi. }
    { done. }
    split; [done |]. split; [done |]. split.
    + intros ->. field. by apply not_symmetry, Qclt_not_eq.
    + intros -> _. field. by apply not_symmetry, Qclt_not_eq.
  - apply list_elem_of_fmap in Hrow as (p & -> & Hp). simpl.
    split; [done |]. split; [apply Qcle_refl |]. split; [done |].
    intros _ Hne. destruct Hnpos. apply Hrange. by apply not_symmetry.
Qed.

(** ** The ADP bonus and the reasoning text *)

Lemma adp_value_bonus_agrees (current_pick : Z) (rank : Qc) :
  adp_value_bonus current_pick rank = spec_adp_value_bonus current_pick rank.
Proof. apply adp_value_bonus_spec. Qed.

Lemma tenth_of_twenty : (Qc_of_Z 20 * dec 0.1)%Qc = dec 2.0.
Proof. by apply Qc_is_canon. Qed.

Lemma dec_tenth_pos : (0 < dec 0.1)%Qc.
Proof. done. Qed.

Lemma adp_value_bonus_cap (current_pick : Z) (rank : Qc) :
  adp_value_bonus current_pick rank = dec 2.0
  ↔ (rank < Qc_of_Z current_pick)%Qc
    ∧ (Qc_of_Z 20 ≤ Qc_of_Z current_pick - rank)%Qc.
Proof.
  unfold adp_value_bonus, py_min.
  rewrite (Qcmult_le_mono_pos_r _ _ (dec 0.1) dec_tenth_pos), tenth_of_twenty.
  destruct (decide (rank < Qc_of_Z current_pick)%Qc) as [Hlt|Hnlt].
  - case_decide as Hcap.
    + split; [|done]. intros _. split; [done |]. by apply Qclt_le_weak.
    + split.
      * intros ->. split; [done |]. apply Qcle_refl.
      * intros [_ Hle]. apply Qcle_antisym; [by apply Qcnot_lt_le | done].
  - split; [done |]. by intros [? _].
Qed.

Section ReasoningProperties.
Variable players_df : list player.
Variable str_float : Qc → string.

(** X14: the ADP bonus lies between 0 and 2, and it is at its cap of 2
    exactly when the reasoning opens with "EXCEPTIONAL VALUE", that is
    when the expert rank is 20 or more below the overall draft position. *)
Theorem exceptional_value_iff_cap st ps team_needs :
  (0 ≤ adp_value_bonus (get_current_draft_position st) (ps_expert_rank ps))%Qc
  ∧ (adp_value_bonus (get_current_draft_position st) (ps_expert_rank ps)
     ≤ dec 2.0)%Qc
  ∧ (adp_value_bonus (get_current_draft_position st) (ps_expert_rank ps)
     = dec 2.0
     ↔ head (reasons_of players_df str_float st ps team_needs)
       = Some ("EXCEPTIONAL VALUE: "
               +:+ str_float (Qc_of_Z (get_current_draft_position st)
                              - ps_expert_rank ps)%Qc
               +:+ " picks below ADP!")).
Proof.
  split; [|split].
  - unfold adp_value_bonus, py_min. repeat case_decide; try done.
    apply Qcmult_nonneg_nonneg; [|done].
    unfold Qcminus. rewrite <- Qcle_minus_iff. by apply Qclt_le_weak.
  - unfold adp_value_bonus, py_min. repeat case_decide; try done.
    by apply Qcnot_lt_le.
  - rewrite adp_value_bonus_cap. unfold reasons_of, get_current_draft_position.
    destruct (decide (ps_expert_rank ps
                      < Qc_of_Z ((round st - 1) * total_teams st + pick st))%Qc)
      as [Hlt|Hnlt].
    + destruct (decide (Qc_of_Z 20 ≤ _)%Qc) as [H20|Hn20]; simpl.
      * by split.
      * split; [by intros [_ ?] |].
        destruct (decide (Qc_of_Z 10 ≤ _)%Qc); simpl; by intros [=].
    + split; [by intros [? _] |]. simpl. by case_decide.
Qed.

(** X15: the reasoning is never empty, so the fallback sentence is never
    returned: the text is the reasons joined by "; ", at most five of
    them, one of which says whether the team still needs the position. *)
Theorem reasoning_never_falls_back st ps team_needs value_gaps :
  reasons_of players_df str_float st ps team_needs ≠ []
  ∧ (length (reasons_of players_df str_float st ps team_needs) ≤ 5)%nat
  ∧ _generate_reasoning players_df str_float st ps team_needs value_gaps
    = String.concat "; " (reasons_of players_df str_float st ps team_needs)
  ∧ (if decide (0 < default 0 (team_needs !! ps_position ps))
     then "Need " +:+ ps_position ps +:+ " players"
     else "Position filled but value too good to pass up")
    ∈ reasons_of players_df str_float st ps team_needs.
Proof.
  assert (Hin : (if decide (0 < default 0 (team_needs !! ps_position ps))
                 then "Need " +:+ ps_position ps +:+ " players"
                 else "Position filled but value too good to pass up")
                ∈ reasons_of players_df str_float st ps team_needs).
  { unfold reasons_of. apply elem_of_app. right. apply elem_of_app. left.
    case_decide; left. }
  split; [by intros Hnil; rewrite Hnil in Hin; apply elem_of_nil in Hin |].
  split; [|split; [|done]].
  - unfold reasons_of. rewrite !length_app.
    repeat case_decide; simpl; try case_match; simpl; lia.
  - unfold _generate_reasoning.
    destruct (reasons_of players_df str_float st ps team_needs) eqn:Hr; [|done].
    by apply elem_of_nil in Hin.
Qed.
End ReasoningProperties.

(** ** The ranked recommendations *)

Section RecommendationProperties.
Variable players_df : list player.
Variable str_float : Qc → string.

(** X16: when no available player has the expert rank 0,
    [get_recommendations] answers; for a non-negative request it returns
    that many recommendations or, if fewer players are available, one per
    available player; for a negative request [-k] it drops the [k]
    lowest-scored players instead; and the ranks count from 1 in the order
    of the list.  When some available player has the expert rank 0 it
    raises instead, whatever the request. *)
Theorem recommendations_count_and_ranks num st :
  (Forall (λ p, Expert_Rank p ≠ 0%Qc) (get_available_players players_df st) →
   ∃ recs,
     get_recommendations players_df str_float num st = Some recs
     ∧ Z.of_nat (length recs)
       = (let n := Z.of_nat (length (get_available_players players_df st)) in
          if decide (0 ≤ num) then Z.min num n else Z.max 0 (n + num))
     ∧ ∀ (i : nat) r, recs !! i = Some r → rec_rank r = Z.of_nat i + 1)
  ∧ (Exists (λ p, Expert_Rank p = 0%Qc) (get_available_players players_df st) →
     get_recommendations players_df str_float num st = None).
Proof.
  unfold get_recommendations. split.
  - intros Hranks.
    destruct (proj2 (player_scores_is_Some players_df st) Hranks)
      as [scores Hscores].
    rewrite Hscores. simpl. eexists. split; [done |]. split.
    + rewrite length_imap.
      destruct (py_head_take num (sort_desc ps_score scores)) as (_ & _ & ->).
      rewrite (Permutation_length (sort_desc_Permutation ps_score scores)).
      rewrite <- (player_scores_players _ _ _ Hscores), length_fmap. done.
    + intros i r Hr. rewrite list_lookup_imap in Hr.
      destruct (py_head num (sort_desc ps_score scores) !! i);
        simpl in Hr; [|done].
      by injection Hr as <-.
  - intros Hzero.
    destruct (player_scores players_df st) as [scores|] eqn:Hscores; [|done].
    assert (Hall : Forall (λ p, Expert_Rank p ≠ 0%Qc)
                          (get_available_players players_df st))
      by (apply player_scores_is_Some; by exists scores).
    apply Exists_exists in Hzero as (p & Hp & Hrank).
    by destruct (proj1 (Forall_forall _ _) Hall p Hp).
Qed.

(** X17: the recommendations are the leading entries of the scores put in
    descending order: no entry is scored higher than an earlier one, every
    recommendation carries name, position, team and rank of an available
    player and that player's score rounded to four decimals, and no scored
    player is listed more often than it was scored. *)
Theorem recommendations_best_first num st scores recs :
  player_scores players_df st = Some scores →
  get_recommendations players_df str_float num st = Some recs →
  ∃ sorted : list player_score,
    sorted ≡ₚ scores
    ∧ (∀ (i j : nat) e1 e2, (i ≤ j)%nat →
         sorted !! i = Some e1 → sorted !! j = Some e2 →
         (ps_score e2 ≤ ps_score e1)%Qc)
    ∧ (length recs ≤ length sorted)%nat
    ∧ ∀ (i : nat) r, recs !! i = Some r →
        ∃ e, sorted !! i = Some e
             ∧ ps_player e ∈ get_available_players players_df st
             ∧ rec_player_name r = Name (ps_player e)
             ∧ rec_position r = Position (ps_player e)
             ∧ rec_team r = Team (ps_player e)
             ∧ rec_expert_rank r = Expert_Rank (ps_player e)
             ∧ rec_recommendation_score r = py_round (ps_score e) 4.
Proof.
  intros Hscores. unfold get_recommendations. rewrite Hscores. simpl.
  intros [= <-]. exists (sort_desc ps_score scores).
  split; [apply sort_desc_Permutation |]. split; [|split].
  - intros i j e1 e2 Hij H1 H2.
    by apply (StronglySorted_lookup_le (by_key_desc ps_score) _
                (sort_desc_StronglySorted ps_score scores) i j e1 e2).
  - rewrite length_imap.
    destruct (py_head_take num (sort_desc ps_score scores)) as (k & -> & _).
    rewrite length_take. lia.
  - intros i r Hr. rewrite list_lookup_imap in Hr.
    destruct (py_head num (sort_desc ps_score scores) !! i) as [e|] eqn:He;
      simpl in Hr; [|done].
    injection Hr as <-. apply py_head_lookup in He.
    exists e. split; [done |]. split; [|done].
    rewrite <- (player_scores_players _ _ _ Hscores).
    apply list_elem_of_fmap_2.
    rewrite <- (sort_desc_Permutation ps_score scores).
    by eapply list_elem_of_lookup_2.
Qed.
End RecommendationProperties.

(** ** Best available players *)

Lemma Qc_inverse_antitone (a b : Qc) :
  (0 < a)%Qc → (a < b)%Qc → (1 / b < 1 / a)%Qc.
Proof.
  intros Ha Hab.
  assert (Hb : (0 < b)%Qc) by by eapply Qclt_trans.
  assert (Ha' : a ≠ 0%Qc) by by apply not_symmetry, Qclt_not_eq.
  assert (Hb' : b ≠ 0%Qc) by by apply not_symmetry, Qclt_not_eq.
  apply (Qcmult_lt_mono_pos_r _ _ (a * b)%Qc); [by apply Qcmult_pos_pos |].
  replace (1 / b * (a * b))%Qc with a by (by field).
  by replace (1 / a * (a * b))%Qc with b by (by field).
Qed.

(** The relative value grows with the value score. *)
Lemma with_relative_value_monotone (available : list player)
    (r1 r2 : player * Qc) :
  r1 ∈ with_relative_value available → r2 ∈ with_relative_value available →
  (Value_Score r1.1 ≤ Value_Score r2.1)%Qc → (r1.2 ≤ r2.2)%Qc.
Proof.
  unfold with_relative_value.
  destruct available as [|p0 available]; [by intros []%elem_of_nil |].
  set (col := Value_Score <$> p0 :: available).
  assert (H100 : (0 ≤ Qc_of_Z 100)%Qc)
    by (rewrite <- Z2Qc_inj_0; by apply Z2Qc_inj_le).
  destruct (decide (0 < series_max col - series_min col)%Qc) as [Hpos|Hnpos].
  - intros (p1 & -> & _)%list_elem_of_fmap (p2 & -> & _)%list_elem_of_fmap Hle.
    simpl in *. apply Qcmult_le_mono_nonneg_r; [done |].
    unfold Qcdiv. apply Qcmult_le_mono_nonneg_r.
    + by apply Qclt_le_weak, Qcinv_pos.
    + unfold Qcminus. by apply Qcplus_le_mono_r.
  - intros (p1 & -> & _)%list_elem_of_fmap (p2 & -> & _)%list_elem_of_fmap _.
    apply Qcle_refl.
Qed.

(** A row that is not behind another in combined score is not behind it in
    expert rank either. *)
Lemma combined_score_rank (available : list player) (r1 r2 : player * Qc) :
  Forall (λ p, Value_Score p = (1 / Expert_Rank p)%Qc
               ∧ (0 < Expert_Rank p)%Qc) available →
  r1 ∈ with_relative_value available → r2 ∈ with_relative_value available →
  (combined_score r2 ≤ combined_score r1)%Qc →
  (Expert_Rank r1.1 ≤ Expert_Rank r2.1)%Qc.
Proof.
  intros Hav H1 H2 Hle. apply Qcnot_lt_le. intros Hlt.
  apply (Qclt_not_le (combined_score r1) (combined_score r2)); [|done].
  assert (Hin : ∀ r, r ∈ with_relative_value available → r.1 ∈ available).
  { intros r Hr. rewrite <- (with_relative_value_rows available).
    by apply list_elem_of_fmap_2. }
  rewrite Forall_forall in Hav.
  destruct (Hav _ (Hin _ H1)) as [Hv1 Hp1].
  destruct (Hav _ (Hin _ H2)) as [Hv2 Hp2].
  assert (Hv : (1 / Expert_Rank r1.1 < 1 / Expert_Rank r2.1)%Qc)
    by by apply Qc_inverse_antitone.
  assert (Hrv : (r1.2 ≤ r2.2)%Qc).
  { apply (with_relative_value_monotone available); [done..|].
    rewrite Hv1, Hv2. by apply Qclt_le_weak. }
  unfold combined_score. rewrite Z2Qc_inj_1.
  eapply Qclt_le_trans.
  - apply Qcplus_lt_mono_r. exact Hv.
  - apply Qcplus_le_mono_l. by apply Qcmult_le_mono_nonneg_r.
Qed.

(** X18: for a table loaded from rows with positive expert ranks, the
    combined score orders the best available players by expert rank: a
    later entry never has a smaller rank than an earlier one; the ranks
    of the answer count from 1, and every entry is an available player. *)
Theorem best_available_by_rank rows num st :
  Forall (λ r, (0 < csv_expert_rank r)%Qc) rows →
  ∀ (i j : nat) a b, (i ≤ j)%nat →
    get_best_available_players (load_players rows) num st !! i = Some a →
    get_best_available_players (load_players rows) num st !! j = Some b →
    (ba_expert_rank a ≤ ba_expert_rank b)%Qc
    ∧ ba_rank a = Z.of_nat i + 1
    ∧ ∃ p, p ∈ get_available_players (load_players rows) st
           ∧ ba_player_name a = Name p ∧ ba_expert_rank a = Expert_Rank p.
Proof.
  intros Hranks i j a b Hij Ha Hb.
  unfold get_best_available_players in *.
  set (available := get_available_players (load_players rows) st) in *.
  assert (Hav : Forall (λ p, Value_Score p = (1 / Expert_Rank p)%Qc
                             ∧ (0 < Expert_Rank p)%Qc) available).
  { apply Forall_forall. intros p Hp%available_in_table. split.
    - by eapply load_players_value_score.
    - unfold load_players, _prepare_features, _load_data in Hp.
      apply list_elem_of_fmap in Hp as (r & -> & Hr). simpl.
      rewrite merge_sort_Permutation in Hr.
      by eapply Forall_forall in Hranks. }
  destruct available as [|p0 available'] eqn:Havail;
    [by rewrite lookup_nil in Ha |].
  rewrite <- Havail in *. clear Havail.
  set (sorted := sort_desc combined_score (with_relative_value available)) in *.
  rewrite list_lookup_imap in Ha, Hb.
  destruct (py_head num sorted !! i) as [ra|] eqn:Hra; simpl in Ha; [|done].
  destruct (py_head num sorted !! j) as [rb|] eqn:Hrb; simpl in Hb; [|done].
  injection Ha as <-. injection Hb as <-. simpl.
  apply py_head_lookup in Hra, Hrb.
  assert (Hmem : ∀ (k : nat) r, sorted !! k = Some r →
                   r ∈ with_relative_value available).
  { intros k r Hr. apply list_elem_of_lookup_2 in Hr.
    unfold sorted in Hr. by rewrite sort_desc_Permutation in Hr. }
  split; [|split; [done |]].
  - apply (combined_score_rank available); [done | by eauto..|].
    exact (StronglySorted_lookup_le (by_key_desc combined_score) sorted
             (sort_desc_StronglySorted combined_score _) i j ra rb
             Hij Hra Hrb).
  - exists ra.1. split; [|done].
    rewrite <- (with_relative_value_rows available).
    apply list_elem_of_fmap_2. by eauto.
Qed.

(** ** Value gaps *)

Lemma py_head_nonempty {A} (n : Z) (l : list A) :
  1 ≤ n → l ≠ [] → py_head n l ≠ [].
Proof.
  intros Hn Hl. unfold py_head. rewrite decide_True by lia.
  destruct l as [|x l]; [done |].
  replace (Z.to_nat n) with (S (Z.to_nat (n - 1))) by lia. done.
Qed.

Lemma value_gap_list (pos_players : list player) :
  pos_players ≠ [] →
  let gaps := (λ row, (Name row, Value_Score row))
                <$> py_head 10 (sort_desc Value_Score pos_players) in
  gaps ≠ [] ∧ (length gaps ≤ 10)%nat
  ∧ (∀ name v, (name, v) ∈ gaps →
       ∃ p, p ∈ pos_players ∧ Name p = name ∧ Value_Score p = v)
  ∧ ∀ (i j : nat) g1 g2, (i ≤ j)%nat →
      gaps !! i = Some g1 → gaps !! j = Some g2 → (g2.2 ≤ g1.2)%Qc.
Proof.
  intros Hpp gaps. subst gaps.
  set (sorted := sort_desc Value_Score pos_players).
  assert (Hperm : sorted ≡ₚ pos_players) by apply sort_desc_Permutation.
  assert (Hne : sorted ≠ []).
  { intros Hnil. rewrite Hnil in Hperm. symmetry in Hperm.
    by apply Permutation_nil_r in Hperm. }
  split; [|split; [|split]].
  - intros Hnil%fmap_nil_inv. by apply (py_head_nonempty 10 sorted).
  - rewrite length_fmap.
    destruct (py_head_take 10 sorted) as (k & _ & Hlen).
    rewrite decide_True in Hlen by lia. lia.
  - intros name v (p & [= -> ->] & Hp)%list_elem_of_fmap.
    apply list_elem_of_lookup in Hp as [i Hp].
    apply py_head_lookup, list_elem_of_lookup_2 in Hp.
    rewrite Hperm in Hp. by exists p.
  - intros i j g1 g2 Hij H1 H2. rewrite list_lookup_fmap in H1, H2.
    destruct (py_head 10 sorted !! i) as [p1|] eqn:Hp1; simpl in H1; [|done].
    destruct (py_head 10 sorted !! j) as [p2|] eqn:Hp2; simpl in H2; [|done].
    injection H1 as <-. injection H2 as <-. simpl.
    apply py_head_lookup in Hp1, Hp2.
    exact (StronglySorted_lookup_le (by_key_desc Value_Score) sorted
             (sort_desc_StronglySorted Value_Score _) i j p1 p2 Hij Hp1 Hp2).
Qed.

(** X19: [calculate_value_gaps] has an entry for exactly the positions of
    the draft format at which a player is available; an entry is not
    empty, has at most ten players, each an available player of that
    position with its value score, and no player in it has a greater value
    score than an earlier one. *)
Theorem value_gaps_entries players_df st pos :
  (calculate_value_gaps players_df st !! pos = None
   ↔ draft_format st !! pos = None
     ∨ filter (λ p, Position p = pos) (get_available_players players_df st) = [])
  ∧ ∀ gaps, calculate_value_gaps players_df st !! pos = Some gaps →
      gaps ≠ [] ∧ (length gaps ≤ 10)%nat
      ∧ (∀ name v, (name, v) ∈ gaps →
           ∃ p, p ∈ get_available_players players_df st
                ∧ Position p = pos ∧ Name p = name ∧ Value_Score p = v)
      ∧ ∀ (i j : nat) g1 g2, (i ≤ j)%nat →
          gaps !! i = Some g1 → gaps !! j = Some g2 → (g2.2 ≤ g1.2)%Qc.
Proof.
  unfold calculate_value_gaps. rewrite map_lookup_imap.
  destruct (draft_format st !! pos) as [required|]; simpl;
    [|split; [by split; [left |] | done]].
  destruct (filter (λ p, Position p = pos)
                   (get_available_players players_df st))
    as [|p0 pos_players'] eqn:Hpp.
  { split; [by split; [right |] | done]. }
  split; [split; [done | by intros [? | ?]] |].
  intros gaps [= <-].
  destruct (value_gap_list (p0 :: pos_players')) as (Hne & Hlen & Hmem & Hord);
    [done |].
  split; [done |]. split; [done |]. split; [|done].
  intros name v Hin. destruct (Hmem name v Hin) as (p & Hp & Hname & Hv).
  rewrite <- Hpp in Hp. apply list_elem_of_filter in Hp as [Hpos Hp].
  by exists p.
Qed.

(** ** The snapshot and the availability *)

(** X20: for a player table whose rank column is floating point, a draft
    restored from its own export offers the same players: the available
    players, the best available players and the value gaps of the imported
    state are those of the exported one.  For a table whose rank column is
    integer, no draft with a recorded pick is exported: [json.dump] raises,
    and importing the file it leaves fails and keeps the prior state. *)
Theorem import_export_keeps_availability players_df now st cur num :
  (∃ doc st',
     export_draft_state players_df float64 now st = Some doc
     ∧ state_of_py (import_draft_state (Some doc) cur).2 = Some st'
     ∧ get_available_players players_df st' = get_available_players players_df st
     ∧ get_best_available_players players_df num st'
       = get_best_available_players players_df num st
     ∧ calculate_value_gaps players_df st' = calculate_value_gaps players_df st)
  ∧ (drafted_players st ≠ [] →
     export_draft_state players_df int64 now st = None
     ∧ import_draft_state (export_draft_state players_df int64 now st) cur
       = (false, cur)).
Proof.
  split.
  - destruct (import_export players_df now st cur)
      as (doc & v & Hdoc & Himp & Hv).
    exists doc, (set_team_rosters (json_rosters (team_rosters st)) st).
    rewrite Himp. simpl snd. split; [exact Hdoc |]. split; [exact Hv |]. done.
  - intros Hpicks. rewrite (export_int64_raises players_df now st Hpicks).
    done.
Qed.

(** ** The pick endpoint of the web interface *)

Lemma calculate_current_team_run st :
  _calculate_current_team st = (team_on_clock st, st).
Proof.
  unfold team_on_clock. rewrite (surjective_pairing (_calculate_current_team st)).
  by rewrite calculate_current_team_pure.
Qed.

(** X21: when [record_pick_api] records a pick without a team number (or
    with team number 0, which it takes for none), the pick is filed under
    the team on the clock before the call, but the answer reports the
    state after it: round, pick and team on the clock of the next pick.
    The reported team is the team of the recorded pick only when that
    pick closed a round. *)
Theorem record_pick_api_reports_next_pick
    players_df name t y now st msg team yours r p st' :
  t = None ∨ t = Some 0 →
  record_pick_api players_df name t y now st
  = (PickRecorded msg team yours r p, st') →
  ∃ pk,
    last (drafted_players st') = Some pk
    ∧ pi_team_number pk = team_on_clock st
    ∧ team = team_on_clock st' ∧ r = round st' ∧ p = pick st'
    ∧ yours = (is_your_turn st').1
    ∧ (team = pi_team_number pk ↔ pick st = total_teams st).
Proof.
  intros Ht. unfold record_pick_api.
  replace (match t with
           | Some t0 => if decide (t0 = 0) then None else Some t0
           | None => None
           end) with (@None Z) by (by destruct Ht as [-> | ->]).
  unfold bind at 1.
  destruct (record_pick players_df name None y now st) as [[] st1] eqn:Hrec;
    [|done].
  unfold bind, gets, ret. rewrite calculate_current_team_run.
  intros [= <- <- <- <- <- <-].
  apply record_pick_true in Hrec
    as (pk & _ & _ & _ & Hteam & _ & Hd & _ & HT & _ & _ & Hpos).
  exists pk. split; [by rewrite Hd, last_snoc |]. split; [done |].
  split; [done |]. split; [done |]. split; [done |].
  split; [by rewrite is_your_turn_value |].
  rewrite Hteam. simpl. fold (team_on_clock st).
  rewrite !team_on_clock_value, HT.
  destruct Hpos as [(Heq & -> & ->)|(Hne & -> & ->)].
  - rewrite Z.add_1_r, Z.odd_succ, <- Z.negb_odd.
    destruct (Z.odd (round st)); simpl; split; intros; lia.
  - destruct (Z.odd (round st)); split; intros; lia.
Qed.

(** ** The parameter dialogue of the command line *)

(** The range check that [set_draft_parameters] lacks is made by the
    command-line dialogue: it hands the draft parameters to the engine
    only when the user's team lies within [1, total_teams], which also
    makes [total_teams] at least 1; otherwise the draft state stays as it
    is.  So a user's team within range stays within range there. *)
Lemma cli_parameters_within_range total_input current_input st :
  ((cli_set_draft_parameters total_input current_input st).2 = st
   ∨ ∃ total current,
       total_input = Some total ∧ current_input = Some current
       ∧ 1 ≤ current ≤ total
       ∧ (cli_set_draft_parameters total_input current_input st).2
         = set_current_team current (set_total_teams total st))
  ∧ (1 ≤ current_team st ≤ total_teams st →
     1 ≤ current_team (cli_set_draft_parameters total_input current_input st).2
       ≤ total_teams (cli_set_draft_parameters total_input current_input st).2).
Proof.
  unfold cli_set_draft_parameters, get_draft_parameters.
  destruct total_input as [total|], current_input as [current|]; simpl;
    try (split; [by left | done]).
  case_decide as Hrange; simpl; [split; [by left | done] |].
  assert (1 ≤ current ≤ total) by lia.
  split; [|done]. right. by exists total, current.
Qed.

(** X23: who picks does not move the tracker: two successful calls of
    [record_pick] from the same state, with whatever team number,
    ownership flag and player, leave the same round, pick number and
    number of teams. *)
Theorem tracker_ignores_pick_arguments
    players_df name1 t1 y1 now1 name2 t2 y2 now2 st st1 st2 :
  record_pick players_df name1 t1 y1 now1 st = (true, st1) →
  record_pick players_df name2 t2 y2 now2 st = (true, st2) →
  round st1 = round st2 ∧ pick st1 = pick st2
  ∧ total_teams st1 = total_teams st2
  ∧ length (drafted_players st1) = length (drafted_players st2).
Proof.
  intros (pk1 & _ & _ & _ & _ & _ & Hd1 & _ & HT1 & _ & _ & Hpos1)%record_pick_true
         (pk2 & _ & _ & _ & _ & _ & Hd2 & _ & HT2 & _ & _ & Hpos2)%record_pick_true.
  rewrite Hd1, Hd2, HT1, HT2, !length_app. simpl.
  destruct Hpos1 as [(? & -> & ->)|(? & -> & ->)],
           Hpos2 as [(? & -> & ->)|(? & -> & ->)]; done.
Qed.

(** ** The further properties at concrete drafts *)

Lemma tracker_invariant_witness :
  reachable_by sample_players setup_first early_state
  ∧ 1 ≤ total_teams early_state ∧ 1 ≤ round early_state
  ∧ 1 ≤ pick early_state ≤ total_teams early_state
  ∧ get_current_draft_position early_state
    = Z.of_nat (length (drafted_players early_state)) + 1.
Proof.
  assert (Hreach : reachable_by sample_players setup_first early_state).
  { apply reachable_by_perform_all; [constructor |].
    split; [exact I |]. split; [split; [reflexivity | by vm_compute] |].
    split; exact I. }
  split; [exact Hreach |].
  exact (tracker_invariant sample_players early_state Hreach).
Defined.

Lemma advance_beyond_total_teams_witness :
  total_teams shrunk_state < pick shrunk_state
  ∧ advance_times 3 shrunk_state
    = set_pick (pick shrunk_state + 3) shrunk_state.
Proof.
  assert (Hgt : total_teams shrunk_state < pick shrunk_state) by reflexivity.
  split; [exact Hgt |].
  exact (advance_beyond_total_teams 3 shrunk_state Hgt).
Defined.

Lemma round_order_witness :
  pick initial_state = 1 ∧ 3 < total_teams initial_state
  ∧ team_on_clock (advance_times 3 initial_state) = 4.
Proof.
  split; [reflexivity |]. split; [reflexivity |].
  exact (round_order initial_state 3 eq_refl eq_refl).
Defined.

Lemma is_your_turn_marks_pick_witness :
  let call := record_pick sample_players "Bijan Robinson" None None
                "2025-08-30T19:02:00" sample_state in
  call = (true, call.2)
  ∧ ∃ pk, last (drafted_players call.2) = Some pk
          ∧ pi_is_your_pick pk = (is_your_turn sample_state).1.
Proof.
  intros call.
  assert (Hcall : call = (true, call.2)) by (vm_compute; reflexivity).
  split; [exact Hcall |].
  exact (proj2 (is_your_turn_marks_pick sample_players _ _ _ _ Hcall)).
Defined.

Lemma estimate_next_pick_witness :
  1 ≤ pick early_state ≤ total_teams early_state
  ∧ 1 ≤ current_team early_state ≤ total_teams early_state
  ∧ Z.odd (round early_state) = true
  ∧ pick early_state < current_team early_state
  ∧ _estimate_next_pick early_state = 3
  ∧ (is_your_turn (advance_times 3 early_state)).1 = true.
Proof.
  assert (Hp : 1 ≤ pick early_state ≤ total_teams early_state)
    by (split; by vm_compute).
  assert (Hc : 1 ≤ current_team early_state ≤ total_teams early_state)
    by (split; by vm_compute).
  destruct (estimate_next_pick_bounds_and_odd_round early_state Hp Hc)
    as [_ Hodd].
  split; [exact Hp |]. split; [exact Hc |]. split; [reflexivity |].
  split; [reflexivity |]. split; [reflexivity |].
  exact (proj1 (Hodd eq_refl eq_refl)).
Defined.

Lemma rosters_follow_history_witness :
  reachable sample_players sample_state
  ∧ roster_of 1 sample_state
    = filter (λ pk, pi_team_number pk = 1) (drafted_players sample_state).
Proof.
  assert (Hreach : reachable sample_players sample_state)
    by (apply reachable_perform_all; constructor).
  split; [exact Hreach |].
  exact (proj1 (rosters_follow_history sample_players sample_state Hreach) 1).
Defined.

Lemma record_pick_lowers_need_witness :
  let call := record_pick sample_players "Bijan Robinson" (Some 1) None
                "2025-08-30T19:02:00" sample_state in
  (∀ pos required,
     draft_format sample_state !! pos = Some required → 0 ≤ required)
  ∧ call = (true, call.2)
  ∧ ∃ pk, last (drafted_players call.2) = Some pk
          ∧ ∀ other, other ≠ pi_team_number pk →
              get_team_needs other call.2 = get_team_needs other sample_state.
Proof.
  intros call.
  assert (Hfmt : map_Forall (λ (_ : string) required, 0 ≤ required)
                            (draft_format sample_state))
    by (apply (bool_decide_unpack _); vm_compute; exact I).
  assert (Hcall : call = (true, call.2)) by (vm_compute; reflexivity).
  destruct (record_pick_lowers_need sample_players _ _ _ _ _ _ Hfmt Hcall)
    as (pk & Hlast & _ & Hother).
  split; [exact Hfmt |]. split; [exact Hcall |].
  exists pk. split; [exact Hlast | exact Hother].
Defined.

Lemma record_pick_removes_name_witness :
  let call := record_pick sample_players "Bijan Robinson" None None
                "2025-08-30T19:02:00" sample_state in
  call = (true, call.2)
  ∧ get_available_players sample_players call.2
    ≡ₚ filter (λ p, Name p ≠ "Bijan Robinson"%string)
              (get_available_players sample_players sample_state).
Proof.
  intros call.
  assert (Hcall : call = (true, call.2)) by (vm_compute; reflexivity).
  split; [exact Hcall |].
  exact (record_pick_removes_name sample_players _ _ _ _ _ _ Hcall).
Defined.

Lemma available_plus_drafted_witness :
  NoDup (Name <$> sample_players)
  ∧ reachable_by sample_players records_undrafted early_state
  ∧ Z.of_nat (length (get_available_players sample_players early_state))
    + total_drafted (get_draft_summary early_state)
    = Z.of_nat (length sample_players).
Proof.
  assert (Hnames : NoDup (Name <$> sample_players))
    by (apply (bool_decide_unpack _); vm_compute; exact I).
  assert (Hreach : reachable_by sample_players records_undrafted early_state).
  { apply reachable_by_perform_all; [constructor |].
    split; [exact I |]. split; [exact I |]. split; [|exact I].
    apply (bool_decide_unpack _). vm_compute. exact I. }
  split; [exact Hnames |]. split; [exact Hreach |].
  exact (available_plus_drafted sample_players early_state Hnames Hreach).
Defined.

Lemma relative_value_range_witness :
  Forall (λ row : player * Qc, (0 ≤ row.2)%Qc ∧ (row.2 ≤ Qc_of_Z 100)%Qc)
         (with_relative_value sample_players).
Proof.
  eapply Forall_impl; [exact (relative_value_range sample_players) |].
  intros row (H0 & H100 & _). split; [exact H0 | exact H100].
Defined.

Lemma exceptional_value_iff_cap_witness :
  adp_value_bonus (get_current_draft_position late_state)
                  (ps_expert_rank early_ranked_score)
  = dec 2.0.
Proof.
  apply (proj2 (proj2 (proj2 (exceptional_value_iff_cap
                                sample_players sample_str_float late_state
                                early_ranked_score sample_format)))).
  vm_compute. reflexivity.
Defined.

Lemma player_scores_unless_rank_zero_witness :
  let scores := default [] (player_scores sample_players sample_state) in
  Forall (λ p, Expert_Rank p ≠ 0%Qc)
         (get_available_players sample_players sample_state)
  ∧ player_scores sample_players sample_state = Some scores
  ∧ ps_player <$> scores = get_available_players sample_players sample_state
  ∧ length scores = 15%nat
  ∧ ¬ Forall (λ p, Expert_Rank p ≠ 0%Qc)
             (get_available_players zero_rank_players initial_state)
  ∧ player_scores zero_rank_players initial_state = None.
Proof.
  intros scores.
  assert (Hranks : Forall (λ p, Expert_Rank p ≠ 0%Qc)
                          (get_available_players sample_players sample_state))
    by (apply (bool_decide_unpack _); vm_compute; exact I).
  assert (Hzero : ¬ Forall (λ p, Expert_Rank p ≠ 0%Qc)
                           (get_available_players zero_rank_players
                                                  initial_state))
    by (apply (bool_decide_unpack _); vm_compute; exact I).
  destruct (player_scores_unless_rank_zero sample_players sample_state)
    as [Hsome Hrows].
  destruct (player_scores_unless_rank_zero zero_rank_players initial_state)
    as [Hnone _].
  assert (Hscores : player_scores sample_players sample_state = Some scores).
  { subst scores. destruct (proj2 Hsome Hranks) as [s ->]. reflexivity. }
  destruct (Hrows scores Hscores) as [Hplayers _].
  split; [exact Hranks |]. split; [exact Hscores |].
  split; [exact Hplayers |]. split; [|split; [exact Hzero |]].
  - rewrite <- (length_fmap ps_player scores), Hplayers.
    vm_compute. reflexivity.
  - apply eq_None_not_Some. intros Hs. exact (Hzero (proj1 Hnone Hs)).
Defined.

Lemma recommendations_count_and_ranks_witness :
  Forall (λ p, Expert_Rank p ≠ 0%Qc)
         (get_available_players sample_players sample_state)
  ∧ Exists (λ p, Expert_Rank p = 0%Qc)
           (get_available_players zero_rank_players initial_state)
  ∧ (∃ recs,
       get_recommendations sample_players sample_str_float (-12) sample_state
       = Some recs
       ∧ length recs = 3%nat
       ∧ ∀ (i : nat) r, recs !! i = Some r → rec_rank r = Z.of_nat i + 1)
  ∧ get_recommendations zero_rank_players sample_str_float 5 initial_state
    = None.
Proof.
  assert (Hranks : Forall (λ p, Expert_Rank p ≠ 0%Qc)
                          (get_available_players sample_players sample_state))
    by (apply (bool_decide_unpack _); vm_compute; exact I).
  assert (Hzero : Exists (λ p, Expert_Rank p = 0%Qc)
                         (get_available_players zero_rank_players
                                                initial_state))
    by (apply (bool_decide_unpack _); vm_compute; exact I).
  destruct (proj1 (recommendations_count_and_ranks sample_players
                     sample_str_float (-12) sample_state) Hranks)
    as (recs & Hrecs & Hlen & Hrank).
  split; [exact Hranks |]. split; [exact Hzero |]. split.
  - exists recs. split; [exact Hrecs |]. split; [|exact Hrank].
    apply Nat2Z.inj. rewrite Hlen. vm_compute. reflexivity.
  - exact (proj2 (recommendations_count_and_ranks zero_rank_players
                    sample_str_float 5 initial_state) Hzero).
Defined.

Lemma recommendations_best_first_witness :
  let scores := default [] (player_scores sample_players sample_state) in
  let recs := default [] (get_recommendations sample_players sample_str_float
                                              3 sample_state) in
  player_scores sample_players sample_state = Some scores
  ∧ get_recommendations sample_players sample_str_float 3 sample_state
    = Some recs
  ∧ ∃ sorted : list player_score,
      sorted ≡ₚ scores ∧ (length recs ≤ length sorted)%nat.
Proof.
  intros scores recs.
  assert (Hscores : player_scores sample_players sample_state = Some scores).
  { subst scores.
    assert (Hsome : is_Some (player_scores sample_players sample_state)).
    { apply player_scores_is_Some.
      apply (bool_decide_unpack _). vm_compute. exact I. }
    destruct Hsome as [s ->]. reflexivity. }
  assert (Hrecs : get_recommendations sample_players sample_str_float 3
                                      sample_state = Some recs).
  { subst recs. unfold get_recommendations. rewrite Hscores. reflexivity. }
  destruct (recommendations_best_first sample_players sample_str_float 3
              sample_state scores recs Hscores Hrecs)
    as (sorted & Hperm & _ & Hlen & _).
  split; [exact Hscores |]. split; [exact Hrecs |].
  exists sorted. split; [exact Hperm | exact Hlen].
Defined.

Lemma best_available_by_rank_witness :
  Forall (λ r, (0 < csv_expert_rank r)%Qc) sample_rows
  ∧ ∃ a b,
      get_best_available_players (load_players sample_rows) 4 sample_state
        !! 0%nat = Some a
      ∧ get_best_available_players (load_players sample_rows) 4 sample_state
          !! 1%nat = Some b
      ∧ (ba_expert_rank a ≤ ba_expert_rank b)%Qc.
Proof.
  assert (Hranks : Forall (λ r, (0 < csv_expert_rank r)%Qc) sample_rows)
    by (apply (bool_decide_unpack _); vm_compute; exact I).
  split; [exact Hranks |].
  eexists _, _. split; [vm_compute; reflexivity |].
  split; [vm_compute; reflexivity |].
  eapply (proj1 (best_available_by_rank sample_rows 4 sample_state Hranks
                   0%nat 1%nat _ _ (le_S _ _ (le_n _)) _ _)).
  Unshelve. all: vm_compute; reflexivity.
Defined.

Lemma value_gaps_entries_witness :
  let gaps := default [] (calculate_value_gaps sample_players sample_state
                            !! "RB"%string) in
  calculate_value_gaps sample_players sample_state !! "RB"%string = Some gaps
  ∧ gaps ≠ [] ∧ (length gaps ≤ 10)%nat.
Proof.
  intros gaps.
  assert (Hgaps : calculate_value_gaps sample_players sample_state
                    !! "RB"%string = Some gaps) by (vm_compute; reflexivity).
  destruct (proj2 (value_gaps_entries sample_players sample_state "RB")
              gaps Hgaps) as (Hne & Hlen & _).
  split; [exact Hgaps |]. split; [exact Hne | exact Hlen].
Defined.

Lemma record_pick_api_reports_next_pick_witness :
  ∃ msg yours pk,
    record_pick_api sample_players "Bijan Robinson" (Some 0) None
      "2025-08-30T19:02:00" sample_state
    = (PickRecorded msg 3 yours 1 3,
       (record_pick_api sample_players "Bijan Robinson" (Some 0) None
          "2025-08-30T19:02:00" sample_state).2)
    ∧ pi_team_number pk = 2
    ∧ last (drafted_players
              (record_pick_api sample_players "Bijan Robinson" (Some 0) None
                 "2025-08-30T19:02:00" sample_state).2) = Some pk.
Proof.
  assert (Hcall : record_pick_api sample_players "Bijan Robinson" (Some 0) None
                    "2025-08-30T19:02:00" sample_state
                  = (PickRecorded "Pick recorded: Bijan Robinson to Team 3" 3
                       false 1 3,
                     (record_pick_api sample_players "Bijan Robinson" (Some 0)
                        None "2025-08-30T19:02:00" sample_state).2))
    by (vm_compute; reflexivity).
  destruct (record_pick_api_reports_next_pick sample_players _ _ _ _ _ _ _ _ _ _ _
              (or_intror eq_refl) Hcall)
    as (pk & Hlast & Hteam & _).
  exists "Pick recorded: Bijan Robinson to Team 3"%string, false, pk.
  split; [exact Hcall |]. split; [exact Hteam | exact Hlast].
Defined.

Lemma tracker_ignores_pick_arguments_witness :
  let call1 := record_pick sample_players "Bijan Robinson" None None
                 "2025-08-30T19:02:00" sample_state in
  let call2 := record_pick sample_players "CeeDee Lamb" (Some 9) (Some true)
                 "2025-08-30T19:03:00" sample_state in
  call1 = (true, call1.2) ∧ call2 = (true, call2.2)
  ∧ round call1.2 = round call2.2 ∧ pick call1.2 = pick call2.2.
Proof.
  intros call1 call2.
  assert (H1 : call1 = (true, call1.2)) by (vm_compute; reflexivity).
  assert (H2 : call2 = (true, call2.2)) by (vm_compute; reflexivity).
  destruct (tracker_ignores_pick_arguments sample_players _ _ _ _ _ _ _ _ _ _ _
              H1 H2) as (Hr & Hp & _).
  split; [exact H1 |]. split; [exact H2 |]. split; [exact Hr | exact Hp].
Defined.

Lemma import_export_keeps_availability_witness :
  drafted_players integer_state ≠ []
  ∧ (∃ doc st',
       export_draft_state sample_players float64 "2025-08-30T20:00:00"
                          sample_state
       = Some doc
       ∧ state_of_py
           (import_draft_state (Some doc) (state_to_py float64 initial_state)).2
         = Some st'
       ∧ get_available_players sample_players st'
         = get_available_players sample_players sample_state
       ∧ length (get_available_players sample_players st') = 15%nat)
  ∧ export_draft_state integer_players int64 "2025-08-30T20:00:00"
                       integer_state
    = None.
Proof.
  assert (Hpicks : drafted_players integer_state ≠ [])
    by (apply (bool_decide_unpack _); vm_compute; exact I).
  destruct (import_export_keeps_availability sample_players
              "2025-08-30T20:00:00" sample_state
              (state_to_py float64 initial_state) 10)
    as [(doc & st' & Hdoc & Hst' & Havailable & _) _].
  destruct (import_export_keeps_availability integer_players
              "2025-08-30T20:00:00" integer_state
              (state_to_py int64 initial_state) 10) as [_ Hraises].
  split; [exact Hpicks |]. split.
  - exists doc, st'. split; [exact Hdoc |]. split; [exact Hst' |].
    split; [exact Havailable |]. rewrite Havailable. vm_compute. reflexivity.
  - exact (proj1 (Hraises Hpicks)).
Defined.
